(** * pydantic_ai: the conversation-turn state machine

    A shallow embedding of [pydantic_ai/_retriever.py] (class [Retriever]) and
    [pydantic_ai/agent.py] (class [Agent]).

    Mutable attributes ([Retriever._current_retry],
    [Agent._current_result_retry], the [messages] list) are threaded
    explicitly: every method takes the object it mutates and returns it next
    to its outcome, also when it raises, since Python keeps the mutation made
    before a [raise].  The retrievers of an agent are shared objects held in
    the dict [Agent._retrievers]; coroutines refer to them by key. *)

From stdpp Require Import base option list gmap strings.
From Stdlib Require Import ZArith Lia.

Local Open Scope Z_scope.

(** ** Python values *)

(** The dynamically typed values that cross the boundary with user code:
    validated arguments, dependencies and result data. *)
#[local] Unset Elimination Schemes.
Inductive PyVal : Type :=
  | VNone
  | VStr (s : string)
  | VInt (z : Z)
  | VList (l : list PyVal)
  | VDict (d : gmap string PyVal).
#[local] Set Elimination Schemes.

(** [pydantic_core.ErrorDetails], as produced by
    [ValidationError.errors(include_url=False)]. *)
Record ErrorDetails : Type := mkErrorDetails {
  err_type : string;
  err_loc : list string;
  err_msg : string
}.

(** ** messages.py (declarations used by the two files) *)

Inductive ToolArgs : Type :=
  | ArgsJson (args_json : string)
  | ArgsObject (args_object : PyVal).

Record ToolCall : Type := mkToolCall {
  tool_name : string;
  args : ToolArgs;
  tool_id : option string
}.

(** The content of a [ToolRetry]: [list[ErrorDetails] | str]. *)
Inductive RetryContent : Type :=
  | FieldErrors (errors : list ErrorDetails)
  | RetryText (message : string).

(** [LLMMessage = Union[LLMResponse, LLMToolCalls]], told apart by [role]. *)
Inductive LLMMessage : Type :=
  | LLMResponse (content : string)          (* role 'llm-response' *)
  | LLMToolCalls (calls : list ToolCall).   (* role 'llm-tool-calls' *)

Inductive Message : Type :=
  | SystemPrompt (content : string)
  | UserPrompt (content : string)
  | ToolReturn (name : string) (content : string) (id : option string)
  | ToolRetry (name : string) (content : RetryContent) (id : option string)
  | PlainResponseForbidden
  | FromLLM (m : LLMMessage).

(** The exceptions the two files raise or let through.  A constructor per
    raise site; the formatted text of a message is not modelled, its data is. *)
Inductive Exn : Type :=
  | ValidationError (errors : list ErrorDetails)
  | ModelRetry (message : string)
  | ToolRetryError (tool_retry : Message)
      (* result.ToolRetryError, carrying the message to append *)
  | KeyError (key : string)
  | TypeError
  | UserError (what : string)
      (* any other exception of a user function *)
  | ValueError_unknown_function (tool_name : string)
      (* ValueError(f'Unknown function name: {call.tool_name!r}') *)
  | ValueError_conflicts_result_schema (name : string)
  | ValueError_conflicts_retriever (name : string)
  | RuntimeError_exceeded_result_retries (max_retries : Z)
      (* RuntimeError(f'Exceeded maximum retries ({max}) for result validation') *)
  | RuntimeError_model_must_be_set.

(** The outcome of a call that may raise. *)
Inductive Outcome (A : Type) : Type :=
  | Return (a : A)
  | Raise (e : Exn).
Arguments Return {A} a.
Arguments Raise {A} e.


(** Python truthiness of a [str | None] attribute: [if self.single_arg_name:]. *)
Definition truthy (s : option string) : option string :=
  match s with
  | Some EmptyString => None
  | other => other
  end.

(** ** _retriever.py *)

Definition AgentDeps : Type := PyVal.

Record CallContext : Type := mkCallContext {
  ctx_deps : AgentDeps;
  ctx_retry : Z
}.

(** What awaiting the user function gives: its string, a [ModelRetry], or
    any other exception. *)
Inductive FuncOutcome : Type :=
  | Returned (response_content : string)
  | RaisedModelRetry (message : string)
  | RaisedOther (e : Exn).

(** A positional argument of the call [function( *args, **kwargs)]: the
    call context that [_call_args] puts first for a context function, or a
    validated value. *)
Inductive CallArg : Type :=
  | ArgContext (c : CallContext)
  | ArgValue (v : PyVal).

Definition PyFunction : Type :=
  list CallArg -> gmap string PyVal -> FuncOutcome.

(** [_utils.Either]: the function is stored as context-taking ([left]) or
    plain ([right]). *)
Inductive RetrieverEitherFunc : Type :=
  | Left (f : PyFunction)
  | Right (f : PyFunction).

Definition whichever (e : RetrieverEitherFunc) : PyFunction :=
  match e with Left f => f | Right f => f end.

Definition is_left (e : RetrieverEitherFunc) : bool :=
  match e with Left _ => true | Right _ => false end.

(** [pydantic_core.SchemaValidator]: both entry points give the validated
    value or the error list of a [ValidationError]. *)
Record SchemaValidator : Type := mkSchemaValidator {
  validate_json : string -> list ErrorDetails + PyVal;
  validate_python : PyVal -> list ErrorDetails + PyVal
}.

Record Retriever : Type := mkRetriever {
  name : string;
  description : string;
  function : RetrieverEitherFunc;
  is_async : bool;
  single_arg_name : option string;
  positional_fields : list string;
  var_positional_field : option string;
  validator : SchemaValidator;
  max_retries : Z;
  _current_retry : Z
}.

Definition set_current_retry (r : Retriever) (n : Z) : Retriever :=
  {| name := name r; description := description r; function := function r;
     is_async := is_async r; single_arg_name := single_arg_name r;
     positional_fields := positional_fields r;
     var_positional_field := var_positional_field r;
     validator := validator r; max_retries := max_retries r;
     _current_retry := n |}.

Module Retriever.

(** [reset]: [self._current_retry = 0]. *)
Definition reset (self : Retriever) : Retriever :=
  set_current_retry self 0.

(** [_on_error].  It is only called inside an [except] clause of [run],
    so its bare [raise] re-raises the exception being handled there,
    passed here as [active].  The increment is kept when it raises. *)
Definition _on_error (self : Retriever) (active : Exn)
    (content : RetryContent) (call_message : ToolCall)
    : Outcome Message * Retriever :=
  let self := set_current_retry self (_current_retry self + 1) in
  if _current_retry self >? max_retries self
  then (Raise active, self)
  else (Return (ToolRetry (tool_name call_message) content
                          (tool_id call_message)), self).

(** [args_dict.pop(field)] on the validated mapping. *)
Definition pop (field : string) (args_dict : gmap string PyVal)
    : Outcome (PyVal * gmap string PyVal) :=
  match args_dict !! field with
  | Some v => Return (v, delete field args_dict)
  | None => Raise (KeyError field)
  end.

(** The loop [for positional_field in self.positional_fields:
    args.append(args_dict.pop(positional_field))]. *)
Fixpoint pop_positional (fields : list string) (args : list CallArg)
    (args_dict : gmap string PyVal)
    : Outcome (list CallArg * gmap string PyVal) :=
  match fields with
  | [] => Return (args, args_dict)
  | positional_field :: rest =>
      match pop positional_field args_dict with
      | Raise e => Raise e
      | Return (v, args_dict) =>
          pop_positional rest (args ++ [ArgValue v]) args_dict
      end
  end.

(** The items that [list.extend] takes from a value: those of a list, the
    characters of a str, the keys of a dict; a value that is not iterable
    is a [TypeError].  A mapping of the model keeps no insertion order, so
    the keys of a dict come in the order of the mapping. *)
Definition iterate (v : PyVal) : option (list PyVal) :=
  match v with
  | VList l => Some l
  | VStr s =>
      Some ((fun a => VStr (String a EmptyString)) <$> String.list_ascii_of_string s)
  | VDict d => Some (VStr <$> (map_to_list d).*1)
  | VInt _ | VNone => None
  end.

(** [_call_args].  Without [single_arg_name] the validated value is the
    mapping of the function's parameters (the schema compiler builds the
    validator so); a value that is no mapping cannot be popped from or
    passed as keyword arguments and is a [TypeError] here. *)
Definition _call_args (self : Retriever) (deps : AgentDeps)
    (args_dict : PyVal) : Outcome (list CallArg * gmap string PyVal) :=
  let args_dict :=
    match truthy (single_arg_name self) with
    | Some single => VDict {[ single := args_dict ]}
    | None => args_dict
    end in
  match args_dict with
  | VDict args_dict =>
      let args :=
        if is_left (function self)
        then [ArgContext (mkCallContext deps (_current_retry self))]
        else [] in
      match pop_positional (positional_fields self) args args_dict with
      | Raise e => Raise e
      | Return (args, args_dict) =>
          match truthy (var_positional_field self) with
          | Some var =>
              match pop var args_dict with
              | Raise e => Raise e
              | Return (v, args_dict) =>
                  match iterate v with
                  | Some extra =>
                      Return (args ++ (ArgValue <$> extra), args_dict)
                  | None => Raise TypeError
                  end
              end
          | None => Return (args, args_dict)
          end
      end
  | _ => Raise TypeError
  end.

(** The [try] block around the validator: [validate_json] for
    [ArgsJson], [validate_python] otherwise. *)
Definition validate_args (self : Retriever) (message : ToolCall)
    : list ErrorDetails + PyVal :=
  match args message with
  | ArgsJson args_json => validate_json (validator self) args_json
  | ArgsObject args_object => validate_python (validator self) args_object
  end.

(** The awaited call: [await function( *args, **kwargs)] for an async
    function, [await _utils.run_in_executor(function, *args, **kwargs)]
    otherwise; both give what the function gives. *)
Definition await_function (self : Retriever) (args : list CallArg)
    (kwargs : gmap string PyVal) : FuncOutcome :=
  if is_async self
  then whichever (function self) args kwargs
  else whichever (function self) args kwargs.

(** What follows the awaited call in [run]: the [except ModelRetry]
    clause, or the reset and the [ToolReturn].  [self] is the retriever as
    it is when the call has finished. *)
Definition after_function (self : Retriever) (message : ToolCall)
    (awaited : FuncOutcome) : Outcome Message * Retriever :=
  match awaited with
  | RaisedModelRetry m => _on_error self (ModelRetry m) (RetryText m) message
  | RaisedOther e => (Raise e, self)
  | Returned response_content =>
      (Return (ToolReturn (tool_name message) response_content
                          (tool_id message)),
       set_current_retry self 0)
  end.

(** [run], awaited on its own (nothing else touches [self] meanwhile). *)
Definition run (self : Retriever) (deps : AgentDeps) (message : ToolCall)
    : Outcome Message * Retriever :=
  match validate_args self message with
  | inl errors =>
      _on_error self (ValidationError errors) (FieldErrors errors) message
  | inr args_dict =>
      match _call_args self deps args_dict with
      | Raise e => (Raise e, self)
      | Return (args, kwargs) =>
          after_function self message (await_function self args kwargs)
      end
  end.

(** *** [run] as a coroutine

    [run] has one suspension point, the awaited call of the function.  A
    coroutine object is created by [retriever.run(deps, call)] without
    running anything; its first resumption runs [run] up to the [await],
    its second one runs what follows.  [self] is the shared retriever
    object, read anew at each resumption. *)
Inductive Coroutine : Type :=
  | Created (deps : AgentDeps) (message : ToolCall)
  | Suspended (message : ToolCall) (awaited : FuncOutcome)
  | Done (result : Message).

Definition resume (self : Retriever) (c : Coroutine)
    : Outcome Coroutine * Retriever :=
  match c with
  | Created deps message =>
      match validate_args self message with
      | inl errors =>
          match _on_error self (ValidationError errors)
                          (FieldErrors errors) message with
          | (Return m, self) => (Return (Done m), self)
          | (Raise e, self) => (Raise e, self)
          end
      | inr args_dict =>
          match _call_args self deps args_dict with
          | Raise e => (Raise e, self)
          | Return (args, kwargs) =>
              (Return (Suspended message (await_function self args kwargs)),
               self)
          end
      end
  | Suspended message awaited =>
      match after_function self message awaited with
      | (Return m, self) => (Return (Done m), self)
      | (Raise e, self) => (Raise e, self)
      end
  | Done m => (Return (Done m), self)
  end.

End Retriever.

(** ** asyncio.gather over retriever coroutines

    [await asyncio.gather( *coros)] wraps the coroutines in tasks, lets the
    event loop resume them in an order of its choosing until all are done,
    and gives their results as a list in the order of [coros], whatever the
    order of completion.  The first exception raised by a task is raised to
    the awaiter; the other tasks are not cancelled.

    The model follows a batch up to the task that raises: the retrievers it
    gives with an exception are those at that moment.  What the tasks still
    running do to their retrievers afterwards, before or after the awaiter
    sees the exception, is not followed, so for a batch of several calls
    that raises only the exception, not the counters, is the program's.

    The event loop's choice is the list [schedule] of task indices, one per
    resumption.  Every task still unfinished after it is resumed in index
    order, so that every list is a schedule that the loop can follow to the
    end.  A task belongs to the retriever registered under its call's
    [tool_name] and mutates that shared object in [retrievers]. *)
Module asyncio.

Import Retriever.

Definition task_key (c : Coroutine) : option string :=
  match c with
  | Created _ message | Suspended message _ => Some (tool_name message)
  | Done _ => None
  end.

(** One resumption of a task. *)
Definition resume_task (retrievers : gmap string Retriever) (c : Coroutine)
    : Outcome Coroutine * gmap string Retriever :=
  match task_key c with
  | None => (Return c, retrievers)
  | Some key =>
      match retrievers !! key with
      | None => (Raise (ValueError_unknown_function key), retrievers)
      | Some self =>
          match resume self c with
          | (Return c, self) => (Return c, <[key := self]> retrievers)
          | (Raise e, self) => (Raise e, <[key := self]> retrievers)
          end
      end
  end.

Fixpoint run_schedule (schedule : list nat) (tasks : list Coroutine)
    (retrievers : gmap string Retriever)
    : Outcome (list Coroutine) * gmap string Retriever :=
  match schedule with
  | [] => (Return tasks, retrievers)
  | i :: schedule =>
      match tasks !! i with
      | None => run_schedule schedule tasks retrievers
      | Some c =>
          match resume_task retrievers c with
          | (Raise e, retrievers) => (Raise e, retrievers)
          | (Return c, retrievers) =>
              run_schedule schedule (<[i := c]> tasks) retrievers
          end
      end
  end.

(** The result of a finished task. *)
Definition result (c : Coroutine) : option Message :=
  match c with Done m => Some m | _ => None end.

Definition gather (schedule : list nat) (coros : list Coroutine)
    (retrievers : gmap string Retriever)
    : Outcome (list Message) * gmap string Retriever :=
  let finish := seq 0 (length coros) ++ seq 0 (length coros) in
  match run_schedule (schedule ++ finish) coros retrievers with
  | (Raise e, retrievers) => (Raise e, retrievers)
  | (Return tasks, retrievers) => (Return (omap result tasks), retrievers)
  end.

End asyncio.

(** ** Collaborators of agent.py that are declared elsewhere

    result.py, models.py and _system_prompt.py are not among the two files.
    The agent only calls into them, so each class is the record of the
    methods and attributes that agent.py uses, and every statement below
    holds for all of them. *)

Definition ResultData : Type := PyVal.

(** result.py.  [validate] gives the result or raises, for a retry, the
    exception [ToolRetryError]. *)
Module _result.

Record ResultSchema : Type := mkResultSchema {
  name : string;
  allow_text_result : bool;
  validate : ToolCall -> Outcome ResultData
}.

(** [ResultValidator.validate(result, deps, retry, tool_call)]. *)
Record ResultValidator : Type := mkResultValidator {
  validator_validate :
    ResultData -> AgentDeps -> Z -> ToolCall -> Outcome ResultData
}.

Record Cost : Type := mkCost { total_cost : Z }.

Record RunResult : Type := mkRunResult {
  response : ResultData;
  message_history : list Message;
  cost : Cost
}.

End _result.

(** models.py.  [agent_model] is given what the agent allows and offers;
    the model it returns answers a conversation with one [LLMMessage]. *)
Module _models.

Inductive AbstractToolDefinition : Type :=
  | RetrieverDefinition (r : Retriever)
  | ResultDefinition (s : _result.ResultSchema).

Record AgentModel : Type := mkAgentModel {
  request : list Message -> LLMMessage
}.

Record Model : Type := mkModel {
  agent_model :
    bool -> list AbstractToolDefinition -> option string -> AgentModel
}.

End _models.

(** _system_prompt.py: [SystemPromptRunner.run(deps)]. *)
Module _system_prompt.

Record SystemPromptRunner : Type := mkSystemPromptRunner {
  run : AgentDeps -> string
}.

End _system_prompt.

(** ** agent.py *)

Record Agent : Type := mkAgent {
  _model : option _models.Model;
  _result_tool : option _result.ResultSchema;
  _result_validators : list _result.ResultValidator;
  _allow_text_result : bool;
  _system_prompts : list string;
  _retrievers : gmap string Retriever;
  _default_retries : Z;
  _system_prompt_functions : list _system_prompt.SystemPromptRunner;
  _default_deps : AgentDeps;
  _max_result_retries : Z;
  _current_result_retry : Z
}.

Definition set_retrievers (a : Agent) (rs : gmap string Retriever) : Agent :=
  {| _model := _model a; _result_tool := _result_tool a;
     _result_validators := _result_validators a;
     _allow_text_result := _allow_text_result a;
     _system_prompts := _system_prompts a;
     _retrievers := rs;
     _default_retries := _default_retries a;
     _system_prompt_functions := _system_prompt_functions a;
     _default_deps := _default_deps a;
     _max_result_retries := _max_result_retries a;
     _current_result_retry := _current_result_retry a |}.

Definition set_current_result_retry (a : Agent) (n : Z) : Agent :=
  {| _model := _model a; _result_tool := _result_tool a;
     _result_validators := _result_validators a;
     _allow_text_result := _allow_text_result a;
     _system_prompts := _system_prompts a;
     _retrievers := _retrievers a;
     _default_retries := _default_retries a;
     _system_prompt_functions := _system_prompt_functions a;
     _default_deps := _default_deps a;
     _max_result_retries := _max_result_retries a;
     _current_result_retry := n |}.

(** A run that has not ended after the turns it was given, or one that has:
    with its [RunResult] or with the exception that left [run]. *)
Inductive RunState : Type :=
  | Running (self : Agent) (messages : list Message)
  | Ended (outcome : Outcome _result.RunResult) (self : Agent)
          (messages : list Message).

Module Agent.

(** [__init__].  [result_tool] is what [ResultSchema[result_type].build]
    gave ([None] for a plain [str] result), [model] the inferred model;
    [deps] is [None] for the default [()]. *)
Definition __init__ (model : option _models.Model)
    (result_tool : option _result.ResultSchema)
    (system_prompt : list string) (deps : AgentDeps) (retries : Z)
    (result_retries : option Z) : Agent :=
  {| _model := model;
     _result_tool := result_tool;
     _allow_text_result :=
       match result_tool with
       | None => true
       | Some t => _result.allow_text_result t
       end;
     _system_prompts := system_prompt;
     _retrievers := ∅;
     _default_deps := deps;
     _default_retries := retries;
     _system_prompt_functions := [];
     _max_result_retries :=
       match result_retries with Some n => n | None => retries end;
     _current_result_retry := 0;
     _result_validators := [] |}.

(** [_register_retriever].  [retriever] is [Retriever(func, retries_)]
    as built from the function's schema, without its retry settings. *)
Definition _register_retriever (self : Agent) (retriever : Retriever)
    (retries : option Z) : Outcome Retriever * Agent :=
  let retries_ :=
    match retries with Some n => n | None => _default_retries self end in
  let retriever :=
    {| name := name retriever; description := description retriever;
       function := function retriever; is_async := is_async retriever;
       single_arg_name := single_arg_name retriever;
       positional_fields := positional_fields retriever;
       var_positional_field := var_positional_field retriever;
       validator := validator retriever;
       max_retries := retries_;
       _current_retry := 0 |} in
  let conflicts_result :=
    match _result_tool self with
    | Some t => bool_decide (_result.name t = name retriever)
    | None => false
    end in
  if conflicts_result
  then (Raise (ValueError_conflicts_result_schema (name retriever)), self)
  else
    match _retrievers self !! name retriever with
    | Some _ => (Raise (ValueError_conflicts_retriever (name retriever)), self)
    | None =>
        (Return retriever,
         set_retrievers self (<[name retriever := retriever]> (_retrievers self)))
    end.

(** [_incr_result_retry]. *)
Definition _incr_result_retry (self : Agent) : Outcome unit * Agent :=
  let self :=
    set_current_result_retry self (_current_result_retry self + 1) in
  if _current_result_retry self >? _max_result_retries self
  then (Raise (RuntimeError_exceeded_result_retries
                 (_max_result_retries self)), self)
  else (Return tt, self).

(** [_validate_result]: the validators in registration order, each on
    the result of the one before. *)
Fixpoint validate_with (validators : list _result.ResultValidator)
    (result : ResultData) (deps : AgentDeps) (retry : Z)
    (tool_call : ToolCall) : Outcome ResultData :=
  match validators with
  | [] => Return result
  | validator :: rest =>
      match _result.validator_validate validator result deps retry
                                       tool_call with
      | Raise e => Raise e
      | Return result => validate_with rest result deps retry tool_call
      end
  end.

Definition _validate_result (self : Agent) (result : ResultData)
    (deps : AgentDeps) (tool_call : ToolCall) : Outcome ResultData :=
  validate_with (_result_validators self) result deps
                (_current_result_retry self) tool_call.

(** [_init_messages]. *)
Definition _init_messages (self : Agent) (deps : AgentDeps)
    : list Message :=
  (SystemPrompt <$> _system_prompts self) ++
  ((fun runner => SystemPrompt (_system_prompt.run runner deps))
     <$> _system_prompt_functions self).

(** [next((c for c in llm_message.calls if c.tool_name == name), None)]. *)
Definition first_call_named (name : string) (calls : list ToolCall)
    : option ToolCall :=
  List.find (fun c => bool_decide (tool_name c = name)) calls.

(** The loop that builds [coros]: a coroutine per call, or the
    [ValueError] at the first call that names no retriever.  No coroutine
    has run when it raises. *)
Fixpoint make_coros (retrievers : gmap string Retriever)
    (deps : AgentDeps) (calls : list ToolCall)
    (coros : list Retriever.Coroutine)
    : Outcome (list Retriever.Coroutine) :=
  match calls with
  | [] => Return coros
  | call :: calls =>
      match retrievers !! tool_name call with
      | None => Raise (ValueError_unknown_function (tool_name call))
      | Some _ =>
          make_coros retrievers deps calls
                     (coros ++ [Retriever.Created deps call])
      end
  end.

(** The part of [_handle_model_response] under
    [# otherwise we run all retriever functions in parallel]. *)
Definition run_retrievers (self : Agent) (schedule : list nat)
    (messages : list Message) (calls : list ToolCall) (deps : AgentDeps)
    : Outcome (option ResultData) * Agent * list Message :=
  match make_coros (_retrievers self) deps calls [] with
  | Raise e => (Raise e, self, messages)
  | Return coros =>
      match asyncio.gather schedule coros (_retrievers self) with
      | (Raise e, retrievers) =>
          (Raise e, set_retrievers self retrievers, messages)
      | (Return results, retrievers) =>
          (Return None, set_retrievers self retrievers, messages ++ results)
      end
  end.

(** The [try] of the result call: [validate], then [_validate_result]. *)
Definition validate_result_call (self : Agent)
    (result_tool : _result.ResultSchema) (deps : AgentDeps)
    (call : ToolCall) : Outcome ResultData :=
  match _result.validate result_tool call with
  | Raise e => Raise e
  | Return result => _validate_result self result deps call
  end.

(** [_handle_model_response].  [messages] is the list the caller passed,
    mutated in place and so returned in every case; [schedule] is the
    event loop's order of resumptions for this turn's batch. *)
Definition _handle_model_response (self : Agent) (schedule : list nat)
    (messages : list Message) (llm_message : LLMMessage) (deps : AgentDeps)
    : Outcome (option ResultData) * Agent * list Message :=
  let messages := messages ++ [FromLLM llm_message] in
  match llm_message with
  | LLMResponse content =>
      if _allow_text_result self
      then (Return (Some (VStr content)), self, messages)
      else (Return None, self, messages ++ [PlainResponseForbidden])
  | LLMToolCalls calls =>
      match _result_tool self with
      | Some result_tool =>
          match first_call_named (_result.name result_tool) calls with
          | Some call =>
              match validate_result_call self result_tool deps call with
              | Raise (ToolRetryError tool_retry) =>
                  match _incr_result_retry self with
                  | (Raise e, self) => (Raise e, self, messages)
                  | (Return _, self) =>
                      (Return None, self, messages ++ [tool_retry])
                  end
              | Raise e => (Raise e, self, messages)
              | Return result => (Return (Some result), self, messages)
              end
          | None => run_retrievers self schedule messages calls deps
          end
      | None => run_retrievers self schedule messages calls deps
      end
  end.

(** The [while True] loop of [run], for at most [fuel] model turns.
    [event_loop] gives, for the conversation sent to the model, the order
    in which the batch of that turn is resumed. *)
Fixpoint loop (fuel : nat) (self : Agent)
    (event_loop : list Message -> list nat)
    (agent_model : _models.AgentModel) (messages : list Message)
    (deps : AgentDeps) : RunState :=
  match fuel with
  | O => Running self messages
  | S fuel =>
      let llm_message := _models.request agent_model messages in
      match _handle_model_response self (event_loop messages) messages
                                   llm_message deps with
      | (Raise e, self, messages) => Ended (Raise e) self messages
      | (Return (Some value), self, messages) =>
          Ended (Return (_result.mkRunResult value messages
                                             (_result.mkCost 0)))
                self messages
      | (Return None, self, messages) =>
          loop fuel self event_loop agent_model messages deps
      end
  end.

(** [run] up to its loop: the model chosen, the dependencies defaulted,
    the conversation seeded and the user prompt appended, the model given
    the tool definitions, every retriever reset.  The definitions are
    handed to the model in the order of the mapping, not, as the dict
    does, in the order of registration; [deps] is [None] for a call
    without [deps] or with [deps=None]. *)
Definition before_loop (self : Agent) (user_prompt : string)
    (message_history : option (list Message))
    (model : option _models.Model) (deps : option AgentDeps)
    : Outcome (Agent * _models.AgentModel * list Message * AgentDeps) :=
  let model_ :=
    match model with
    | Some m => Some m
    | None => _model self
    end in
  match model_ with
  | None => Raise RuntimeError_model_must_be_set
  | Some model_ =>
      let deps :=
        match deps with Some d => d | None => _default_deps self end in
      let messages :=
        match message_history with
        | Some history => history
        | None => _init_messages self deps
        end in
      let messages := messages ++ [UserPrompt user_prompt] in
      let functions :=
        (_models.RetrieverDefinition <$>
           (snd <$> map_to_list (_retrievers self))) ++
        match _result_tool self with
        | Some t => [_models.ResultDefinition t]
        | None => []
        end in
      let result_tool_name := _result.name <$> _result_tool self in
      let agent_model :=
        _models.agent_model model_ (_allow_text_result self) functions
                            result_tool_name in
      let self :=
        set_retrievers self (Retriever.reset <$> _retrievers self) in
      Return (self, agent_model, messages, deps)
  end.

(** [run], for at most [fuel] model turns. *)
Definition run (self : Agent) (event_loop : list Message -> list nat)
    (fuel : nat) (user_prompt : string)
    (message_history : option (list Message))
    (model : option _models.Model) (deps : option AgentDeps) : RunState :=
  match before_loop self user_prompt message_history model deps with
  | Raise e => Ended (Raise e) self []
  | Return (self, agent_model, messages, deps) =>
      loop fuel self event_loop agent_model messages deps
  end.

(** [system_prompt]: the decorator appends the runner of [func] to
    [_system_prompt_functions]; [runner] is [SystemPromptRunner(func)]. *)
Definition system_prompt (self : Agent)
    (runner : _system_prompt.SystemPromptRunner) : Agent :=
  {| _model := _model self; _result_tool := _result_tool self;
     _result_validators := _result_validators self;
     _allow_text_result := _allow_text_result self;
     _system_prompts := _system_prompts self;
     _retrievers := _retrievers self;
     _default_retries := _default_retries self;
     _system_prompt_functions := _system_prompt_functions self ++ [runner];
     _default_deps := _default_deps self;
     _max_result_retries := _max_result_retries self;
     _current_result_retry := _current_result_retry self |}.

(** [result_validator]: the decorator appends [ResultValidator(func)] to
    [_result_validators]. *)
Definition result_validator (self : Agent)
    (validator : _result.ResultValidator) : Agent :=
  {| _model := _model self; _result_tool := _result_tool self;
     _result_validators := _result_validators self ++ [validator];
     _allow_text_result := _allow_text_result self;
     _system_prompts := _system_prompts self;
     _retrievers := _retrievers self;
     _default_retries := _default_retries self;
     _system_prompt_functions := _system_prompt_functions self;
     _default_deps := _default_deps self;
     _max_result_retries := _max_result_retries self;
     _current_result_retry := _current_result_retry self |}.

(** [run_sync]: [asyncio.run(self.run(...))], the same run driven to its
    end by a fresh event loop. *)
Definition run_sync (self : Agent) (event_loop : list Message -> list nat)
    (fuel : nat) (user_prompt : string)
    (message_history : option (list Message))
    (model : option _models.Model) (deps : option AgentDeps) : RunState :=
  run self event_loop fuel user_prompt message_history model deps.

End Agent.

(** The agent of a run state. *)
Definition agent_of (st : RunState) : Agent :=
  match st with
  | Running self _ => self
  | Ended _ self _ => self
  end.

(** * Notions used in the statements *)

(** What [__init__] establishes between [_allow_text_result] and
    [_result_tool], and nothing changes afterwards. *)
Definition text_flag_consistent (self : Agent) : Prop :=
  _allow_text_result self =
    match _result_tool self with
    | None => true
    | Some t => _result.allow_text_result t
    end.

(** The turn has no call that names the result schema. *)
Definition no_result_call (self : Agent) (calls : list ToolCall) : Prop :=
  match _result_tool self with
  | Some t => Agent.first_call_named (_result.name t) calls = None
  | None => True
  end.

(** The message [m] is the result of [call]: a [ToolReturn] or a
    [ToolRetry] with the call's [tool_name] and [tool_id]. *)
Definition answers (call : ToolCall) (m : Message) : Prop :=
  (∃ content, m = ToolReturn (tool_name call) content (tool_id call)) ∨
  (∃ content, m = ToolRetry (tool_name call) content (tool_id call)).

(** The task [c] is the coroutine of [call], at any stage. *)
Definition task_for (call : ToolCall) (c : Retriever.Coroutine) : Prop :=
  match c with
  | Retriever.Created _ message | Retriever.Suspended message _ =>
      message = call
  | Retriever.Done m => answers call m
  end.

(** The resumptions a coroutine still needs. *)
Definition steps_left (c : Retriever.Coroutine) : nat :=
  match c with
  | Retriever.Created _ _ => 2
  | Retriever.Suspended _ _ => 1
  | Retriever.Done _ => 0
  end.

(** The recoverable failure of a call on a retriever, if it has one: the
    exception handled by [run] and the content handed to [_on_error]. *)
Definition failure (self : Retriever) (deps : AgentDeps) (message : ToolCall)
    : option (Exn * RetryContent) :=
  match Retriever.validate_args self message with
  | inl errors => Some (ValidationError errors, FieldErrors errors)
  | inr args_dict =>
      match Retriever._call_args self deps args_dict with
      | Return (args, kwargs) =>
          match Retriever.await_function self args kwargs with
          | RaisedModelRetry m => Some (ModelRetry m, RetryText m)
          | _ => None
          end
      | Raise _ => None
      end
  end.

(** Calls made one after the other on the same retriever object. *)
Fixpoint run_each (self : Retriever) (deps : AgentDeps)
    (calls : list ToolCall) : list (Outcome Message * Retriever) :=
  match calls with
  | [] => []
  | call :: calls =>
      let r := Retriever.run self deps call in
      r :: run_each (snd r) deps calls
  end.

(** [extra] holds the items that [list.extend] takes from [v]: the items
    of a list, the characters of a str, the keys of a dict, these in the
    order of the dict, which a mapping of the model does not record. *)
Definition spreads (v : PyVal) (extra : list PyVal) : Prop :=
  match v with
  | VList l => extra = l
  | VStr s =>
      extra =
        (fun a => VStr (String a EmptyString)) <$> String.list_ascii_of_string s
  | VDict d => extra ≡ₚ VStr <$> (map_to_list d).*1
  | VInt _ | VNone => False
  end.

(** The positional arguments that [_call_args] starts from: the call
    context for a context function, nothing for a plain one. *)
Definition context_args (self : Retriever) (deps : AgentDeps)
    : list CallArg :=
  if is_left (function self)
  then [ArgContext (mkCallContext deps (_current_retry self))]
  else [].

(** The registry of an agent is keyed by the names of its retrievers, none
    of which is the name of the result schema. *)
Definition registry_ok (self : Agent) : Prop :=
  ∀ key r, _retrievers self !! key = Some r →
    name r = key ∧
    ∀ t, _result_tool self = Some t → _result.name t ≠ key.

(** The conversation of a run state. *)
Definition conversation_of (st : RunState) : list Message :=
  match st with
  | Running _ messages => messages
  | Ended _ _ messages => messages
  end.

(** The message [m] is what [run] returns for [call] on the retriever
    that [before] holds for it, and [after] holds that retriever as [run]
    leaves it. *)
Definition run_alone (before after : gmap string Retriever)
    (deps : AgentDeps) (call : ToolCall) (m : Message) : Prop :=
  ∃ self self',
    before !! tool_name call = Some self ∧
    Retriever.run self deps call = (Return m, self') ∧
    after !! tool_name call = Some self'.

(** The stage of the coroutine of [call] in a batch that started from the
    retrievers [before] and has reached [now], when no other coroutine of
    the batch belongs to the same retriever. *)
Definition task_alone (before now : gmap string Retriever)
    (deps : AgentDeps) (call : ToolCall) (c : Retriever.Coroutine) : Prop :=
  ∃ self,
    before !! tool_name call = Some self ∧
    match c with
    | Retriever.Created d message =>
        d = deps ∧ message = call ∧ now !! tool_name call = Some self
    | Retriever.Suspended message awaited =>
        message = call ∧ now !! tool_name call = Some self ∧
        ∃ v a k,
          Retriever.validate_args self call = inr v ∧
          Retriever._call_args self deps v = Return (a, k) ∧
          awaited = Retriever.await_function self a k
    | Retriever.Done m =>
        ∃ self',
          Retriever.run self deps call = (Return m, self') ∧
          now !! tool_name call = Some self'
    end.

(** [r'] is the retriever [r] but for its retry counter. *)
Definition same_tool (r r' : Retriever) : Prop :=
  r' = set_current_retry r (_current_retry r').

(** [a'] is the agent [a] but for its result-retry counter and the retry
    counters of its retrievers: the same keys hold the same tools. *)
Definition same_agent (a a' : Agent) : Prop :=
  a' = set_current_result_retry (set_retrievers a (_retrievers a'))
                                (_current_result_retry a') ∧
  ∀ key, option_Forall2 same_tool (_retrievers a !! key)
                                  (_retrievers a' !! key).

(** The retry counter of a retriever lies between 0 and its budget. *)
Definition within_budget (r : Retriever) : Prop :=
  0 ≤ _current_retry r ≤ Z.max 0 (max_retries r).

(** * Example objects: a weather tool *)

Definition city_error : ErrorDetails :=
  mkErrorDetails "string_type" ["city"] "Input should be a valid string".

Definition json_error : ErrorDetails :=
  mkErrorDetails "json_invalid" [] "Invalid JSON".

Definition weather_validator : SchemaValidator :=
  {| validate_json := fun _ => inl [json_error];
     validate_python := fun v =>
       match v with
       | VDict d =>
           match d !! "city" with
           | Some (VStr _) => inr v
           | _ => inl [city_error]
           end
       | _ => inl [city_error]
       end |}.

Definition get_weather_function : PyFunction :=
  fun args kwargs =>
    match args with
    | [ArgValue (VStr city)] =>
        if bool_decide (city = "Atlantis")
        then RaisedModelRetry "No such city, try another one"
        else Returned ("Sunny in " +:+ city)
    | _ => RaisedOther TypeError
    end.

(** A tool [tool(city: str) -> str] registered with [retries]; [retry] is
    its counter. *)
Definition city_tool (tool : string) (retries retry : Z) : Retriever :=
  {| name := tool;
     description := "The weather of a city";
     function := Right get_weather_function;
     is_async := false;
     single_arg_name := None;
     positional_fields := ["city"];
     var_positional_field := None;
     validator := weather_validator;
     max_retries := retries;
     _current_retry := retry |}.

Definition city_call (tool : string) (city : PyVal) (id : string)
    : ToolCall :=
  {| tool_name := tool;
     args := ArgsObject (VDict {[ "city" := city ]});
     tool_id := Some id |}.

(** [get_weather(city: str) -> str]. *)
Definition get_weather : Z -> Z -> Retriever := city_tool "get_weather".

Definition weather_call : PyVal -> string -> ToolCall :=
  city_call "get_weather".

Definition call_123 : ToolCall := weather_call (VInt 123) "call-1".
Definition call_paris : ToolCall := weather_call (VStr "Paris") "call-2".
Definition call_atlantis : ToolCall := weather_call (VStr "Atlantis") "call-3".

(** * Example objects: an agent with a result schema *)

Definition answer_error : ErrorDetails :=
  mkErrorDetails "int_type" ["answer"] "Input should be a valid integer".

(** A result schema for [{answer: int}] that does not allow plain text. *)
Definition final_result : _result.ResultSchema :=
  {| _result.name := "final_result";
     _result.allow_text_result := false;
     _result.validate := fun call =>
       let retry :=
         ToolRetryError (ToolRetry "final_result" (FieldErrors [answer_error])
                                   (tool_id call)) in
       match args call with
       | ArgsObject (VDict d) =>
           match d !! "answer" with
           | Some (VInt z) => Return (VInt z)
           | _ => Raise retry
           end
       | _ => Raise retry
       end |}.

Definition result_call (answer : PyVal) (id : string) : ToolCall :=
  {| tool_name := "final_result";
     args := ArgsObject (VDict {[ "answer" := answer ]});
     tool_id := Some id |}.

(** A model that answers by [script], whatever tools it is offered. *)
Definition scripted (script : list Message -> LLMMessage)
    : _models.AgentModel :=
  {| _models.request := script |}.

Definition scripted_model (script : list Message -> LLMMessage)
    : _models.Model :=
  {| _models.agent_model := fun _ _ _ => scripted script |}.

(** An agent with the result schema [final_result], one retry for tools
    and for the result, and the tool [get_weather]. *)
Definition weather_agent : Agent :=
  snd (Agent._register_retriever
         (Agent.__init__ None (Some final_result) ["Be helpful"] VNone 1 None)
         (get_weather 0 0) None).

(** An agent without result schema. *)
Definition text_agent : Agent :=
  Agent.__init__ None None [] VNone 1 None.

(** The order of resumptions that follows the calls. *)
Definition in_call_order : list Message -> list nat := fun _ => [].

(** A script that calls the result schema with a string for the answer
    as long as the conversation has fewer than three messages, and with the
    integer afterwards. *)
Definition retry_then_answer : list Message -> LLMMessage :=
  fun messages =>
    if (length messages <? 3)%nat
    then LLMToolCalls [result_call (VStr "42") "call-5"]
    else LLMToolCalls [result_call (VInt 42) "call-6"].

(** The agent [weather_agent] after a first run against that script. *)
Definition weather_agent_after_run : Agent :=
  agent_of (Agent.run weather_agent in_call_order 2 "Answer?" (Some [])
                      (Some (scripted_model retry_then_answer)) None).

(** * Example objects: three tools called in one turn *)

Definition register_all (self : Agent) (tools : list Retriever) : Agent :=
  foldl (fun a r => snd (Agent._register_retriever a r None)) self tools.

Definition abc_agent : Agent :=
  register_all text_agent
    [city_tool "A" 0 0; city_tool "B" 0 0; city_tool "C" 0 0].

Definition abc_calls : list ToolCall :=
  [city_call "A" (VStr "Paris") "a"; city_call "B" (VStr "Atlantis") "b";
   city_call "C" (VStr "Rome") "c"].

(** All three coroutines are started in order; then B finishes first, C
    next, A last. *)
Definition b_first_a_last : list Message -> list nat :=
  fun _ => [0; 1; 2; 1; 2; 0]%nat.

(** A script that asks for the weather of 123 at every turn, and the
    agent [weather_agent] after one turn of a run against it. *)
Definition always_123 : list Message -> LLMMessage :=
  fun _ => LLMToolCalls [call_123].

Definition weather_agent_used : Agent :=
  agent_of (Agent.run weather_agent in_call_order 1 "Weather?" (Some [])
                      (Some (scripted_model always_123)) None).

(** * Example objects: a context tool with a variadic field *)

(** A validator that accepts every mapping as it is. *)
Definition lax_validator : SchemaValidator :=
  {| validate_json := fun _ => inl [json_error];
     validate_python := fun v =>
       match v with
       | VDict _ => inr v
       | _ => inl [city_error]
       end |}.

(** [forecast(ctx, city, *days, **options)]. *)
Definition forecast : Retriever :=
  {| name := "forecast";
     description := "The forecast of a city";
     function := Left (fun _ _ => Returned "Rain");
     is_async := true;
     single_arg_name := None;
     positional_fields := ["city"];
     var_positional_field := Some "days";
     validator := lax_validator;
     max_retries := 2;
     _current_retry := 1 |}.

Definition forecast_args : gmap string PyVal :=
  {[ "city" := VStr "Paris"; "days" := VList [VInt 1; VInt 2];
     "unit" := VStr "C" ]}.

Definition forecast_call (d : gmap string PyVal) : ToolCall :=
  {| tool_name := "forecast"; args := ArgsObject (VDict d);
     tool_id := None |}.

(** * Example objects: one tool called twice in a turn *)

(** An agent whose tool [get_weather] has used its one retry. *)
Definition strained_agent : Agent :=
  set_retrievers weather_agent {[ "get_weather" := get_weather 1 1 ]}.

Definition twice_calls : list ToolCall := [call_paris; call_atlantis].

(** * Example objects: dynamic system prompts *)

Definition name_prompt : _system_prompt.SystemPromptRunner :=
  {| _system_prompt.run := fun deps =>
       match deps with
       | VStr user => "The user is " +:+ user
       | _ => "The user is unknown"
       end |}.

Definition date_prompt : _system_prompt.SystemPromptRunner :=
  {| _system_prompt.run := fun _ => "Today is Monday" |}.

(** * Theorems *)

(** ** Retriever.run *)

Lemma set_current_retry_same self :
  set_current_retry self (_current_retry self) = self.
Proof. by destruct self. Qed.

Lemma on_error_eq self active content call :
  Retriever._on_error self active content call =
  (if decide (_current_retry self + 1 ≤ max_retries self)
   then Return (ToolRetry (tool_name call) content (tool_id call))
   else Raise active,
   set_current_retry self (_current_retry self + 1)).
Proof.
  unfold Retriever._on_error. cbn [_current_retry max_retries set_current_retry].
  destruct (Z.gtb_spec (_current_retry self + 1) (max_retries self));
    case_decide; try lia; reflexivity.
Qed.

Lemma run_failure self deps call exn content :
  failure self deps call = Some (exn, content) →
  Retriever.run self deps call = Retriever._on_error self exn content call.
Proof.
  unfold failure, Retriever.run. intros H.
  destruct (Retriever.validate_args self call) as [errors|args_dict].
  - by inversion H.
  - destruct (Retriever._call_args self deps args_dict) as [[args kwargs]|e];
      [|done].
    destruct (Retriever.await_function self args kwargs); try done.
    by inversion H.
Qed.

Lemma run_each_failures calls : ∀ self deps,
  (∀ i call, calls !! i = Some call →
     is_Some (failure
       (set_current_retry self (_current_retry self + Z.of_nat i)) deps call)) →
  ∀ i call, calls !! i = Some call →
    ∃ exn content,
      failure (set_current_retry self (_current_retry self + Z.of_nat i))
              deps call = Some (exn, content) ∧
      run_each self deps calls !! i =
        Some (if decide (_current_retry self + Z.of_nat i + 1
                         ≤ max_retries self)
              then Return (ToolRetry (tool_name call) content (tool_id call))
              else Raise exn,
              set_current_retry self (_current_retry self + Z.of_nat i + 1)).
Proof.
  induction calls as [|call0 calls IH]; intros self deps Hfail i call Hi.
  - by rewrite lookup_nil in Hi.
  - destruct i as [|i].
    + injection Hi as ->.
      destruct (Hfail 0%nat call eq_refl) as [[exn content] Hf].
      exists exn, content. split; [done|].
      revert Hf. rewrite Z.add_0_r, set_current_retry_same. intros Hf.
      cbn [run_each lookup list_lookup].
      by rewrite (run_failure _ _ _ _ _ Hf), on_error_eq.
    + destruct (Hfail 0%nat call0 eq_refl) as [[exn0 content0] Hf0].
      rewrite Z.add_0_r, set_current_retry_same in Hf0.
      cbn [run_each lookup list_lookup].
      rewrite (run_failure _ _ _ _ _ Hf0), on_error_eq. cbn [snd].
      set (self' := set_current_retry self (_current_retry self + 1)).
      assert (Hshift : ∀ j : nat,
        set_current_retry self' (_current_retry self' + Z.of_nat j) =
        set_current_retry self (_current_retry self + Z.of_nat (S j))).
      { intros j. subst self'. cbn [_current_retry set_current_retry].
        f_equal; lia. }
      destruct (IH self' deps) with (i := i) (call := call)
        as (exn & content & Hf & Hrun); [|done|].
      { intros j c Hj. rewrite Hshift. by apply (Hfail (S j)). }
      exists exn, content. rewrite Hshift in Hf. split; [done|].
      etrans; [exact Hrun|].
      subst self'. cbn [_current_retry max_retries set_current_retry].
      replace (_current_retry self + 1 + Z.of_nat i + 1)
        with (_current_retry self + Z.of_nat (S i) + 1) by lia.
      done.
Qed.

Example get_weather_scenario :
  Retriever.run (get_weather 1 0) VNone call_123 =
    (Return (ToolRetry "get_weather" (FieldErrors [city_error]) (Some "call-1")),
     get_weather 1 1) ∧
  Retriever.run (get_weather 1 1) VNone call_paris =
    (Return (ToolReturn "get_weather" "Sunny in Paris" (Some "call-2")),
     get_weather 1 0).
Proof. split; vm_compute; reflexivity. Qed.

(** C1.  A tool registered with [max_retries = N], its counter at zero, is
    called N+1 times in a row and every call fails (validation error or
    [ModelRetry]).  Then the first N calls each give a [ToolRetry] for their
    call, the counter reading 1, 2, ..., N after them, and call N+1 raises
    the exception of its failure out of [run]. *)
Theorem retry_budget_of_a_tool (self : Retriever) (deps : AgentDeps)
    (N : nat) (calls : list ToolCall) :
  max_retries self = Z.of_nat N →
  _current_retry self = 0 →
  length calls = S N →
  (∀ i call, calls !! i = Some call →
     is_Some (failure (set_current_retry self (Z.of_nat i)) deps call)) →
  ∀ i call, calls !! i = Some call →
    ∃ exn content,
      failure (set_current_retry self (Z.of_nat i)) deps call
        = Some (exn, content) ∧
      run_each self deps calls !! i =
        Some (if decide (i < N)%nat
              then Return (ToolRetry (tool_name call) content (tool_id call))
              else Raise exn,
              set_current_retry self (Z.of_nat i + 1)).
Proof.
  intros Hmax Hzero Hlen Hfail i call Hi.
  destruct (run_each_failures calls self deps) with (i := i) (call := call)
    as (exn & content & Hf & Hrun); [|done|].
  { intros j c Hj. rewrite Hzero, Z.add_0_l. by apply Hfail. }
  rewrite Hzero, Z.add_0_l in Hf, Hrun. rewrite Hmax in Hrun.
  exists exn, content. split; [done|]. rewrite Hrun.
  repeat case_decide; try lia; reflexivity.
Qed.

Lemma retry_budget_of_a_tool_witness :
  ∃ exn content,
    failure (set_current_retry (get_weather 1 0) (Z.of_nat 1)) VNone
            call_atlantis = Some (exn, content) ∧
    run_each (get_weather 1 0) VNone [call_123; call_atlantis] !! 1%nat =
      Some (if decide (1 < 1)%nat
            then Return (ToolRetry (tool_name call_atlantis) content
                                   (tool_id call_atlantis))
            else Raise exn,
            set_current_retry (get_weather 1 0) (Z.of_nat 1 + 1)).
Proof.
  apply (retry_budget_of_a_tool (get_weather 1 0) VNone 1
           [call_123; call_atlantis]); try reflexivity.
  intros [|[|i]] call Hi; cbn in Hi; [| |discriminate Hi];
    injection Hi as <-; vm_compute; eauto.
Defined.

Lemma run_validation_failure self deps message errors :
  Retriever.validate_args self message = inl errors →
  Retriever.run self deps message =
    (if decide (_current_retry self + 1 ≤ max_retries self)
     then Return (ToolRetry (tool_name message) (FieldErrors errors)
                            (tool_id message))
     else Raise (ValidationError errors),
     set_current_retry self (_current_retry self + 1)).
Proof.
  intros Hv. unfold Retriever.run. rewrite Hv. apply on_error_eq.
Qed.

(** C2, as the code has it.  On a validation failure [run] increments the
    counter and returns a [ToolRetry] holding the field errors when the
    incremented counter is at most [max_retries]; when it is greater, the
    [ValidationError] is raised out of [run].  The counter keeps its
    increment either way. *)
Theorem validation_failure_retry_or_fatal (self : Retriever)
    (deps : AgentDeps) (message : ToolCall) (errors : list ErrorDetails) :
  Retriever.validate_args self message = inl errors →
  Retriever.run self deps message =
    (if decide (_current_retry self + 1 ≤ max_retries self)
     then Return (ToolRetry (tool_name message) (FieldErrors errors)
                            (tool_id message))
     else Raise (ValidationError errors),
     set_current_retry self (_current_retry self + 1)).
Proof. apply run_validation_failure. Qed.

Lemma validation_failure_retry_or_fatal_witness :
  Retriever.run (get_weather 1 1) VNone call_123 =
    (if decide (_current_retry (get_weather 1 1) + 1
                ≤ max_retries (get_weather 1 1))
     then Return (ToolRetry (tool_name call_123) (FieldErrors [city_error])
                            (tool_id call_123))
     else Raise (ValidationError [city_error]),
     set_current_retry (get_weather 1 1)
                       (_current_retry (get_weather 1 1) + 1)).
Proof.
  apply (validation_failure_retry_or_fatal (get_weather 1 1) VNone call_123
           [city_error]).
  reflexivity.
Defined.

(** C2, as stated, fails: with [max_retries = 1] and the counter at 0, a
    validation failure gives a [ToolRetry] although the incremented counter,
    1, is not strictly below [max_retries]. *)
Lemma validation_retry_strict_bound_counterexample :
  ¬ (∀ (self : Retriever) (deps : AgentDeps) (message : ToolCall)
       (errors : list ErrorDetails),
       Retriever.validate_args self message = inl errors →
       if decide (_current_retry self + 1 < max_retries self)
       then ∃ m, fst (Retriever.run self deps message) = Return m
       else ∃ e, fst (Retriever.run self deps message) = Raise e).
Proof.
  intros H.
  specialize (H (get_weather 1 0) VNone call_123 [city_error] eq_refl).
  destruct H as [e He]. vm_compute in He. discriminate He.
Qed.

(** C9.  When the arguments validate, bind, and the function returns a
    string, [run] returns the [ToolReturn] with that string and the call's
    [tool_name] and [tool_id], and the counter is 0 afterwards whatever it
    was. *)
Theorem successful_call_resets_counter (self : Retriever) (deps : AgentDeps)
    (message : ToolCall) (args_dict : PyVal) (args : list CallArg)
    (kwargs : gmap string PyVal) (response_content : string) :
  Retriever.validate_args self message = inr args_dict →
  Retriever._call_args self deps args_dict = Return (args, kwargs) →
  Retriever.await_function self args kwargs = Returned response_content →
  Retriever.run self deps message =
    (Return (ToolReturn (tool_name message) response_content
                        (tool_id message)),
     set_current_retry self 0) ∧
  _current_retry (snd (Retriever.run self deps message)) = 0.
Proof.
  intros Hv Hargs Hf. unfold Retriever.run.
  rewrite Hv, Hargs, Hf. split; reflexivity.
Qed.

Lemma successful_call_resets_counter_witness :
  Retriever.run (get_weather 3 2) VNone call_paris =
    (Return (ToolReturn (tool_name call_paris) "Sunny in Paris"
                        (tool_id call_paris)),
     set_current_retry (get_weather 3 2) 0) ∧
  _current_retry (snd (Retriever.run (get_weather 3 2) VNone call_paris)) = 0.
Proof.
  apply (successful_call_resets_counter (get_weather 3 2) VNone call_paris
           (VDict {[ "city" := VStr "Paris" ]}) [ArgValue (VStr "Paris")] ∅
           "Sunny in Paris");
    vm_compute; reflexivity.
Defined.

(** ** Agent._handle_model_response and the loop of Agent.run *)

Lemma init_text_flag_consistent model result_tool system_prompt deps retries
    result_retries :
  text_flag_consistent
    (Agent.__init__ model result_tool system_prompt deps retries
                    result_retries).
Proof. reflexivity. Qed.

Lemma register_text_flag_consistent self retriever retries :
  text_flag_consistent self →
  text_flag_consistent (snd (Agent._register_retriever self retriever retries)).
Proof.
  unfold Agent._register_retriever. intros H.
  repeat case_match; exact H.
Qed.

Lemma first_call_named_Some name calls call :
  Agent.first_call_named name calls = Some call →
  call ∈ calls ∧ tool_name call = name.
Proof.
  unfold Agent.first_call_named. intros H.
  apply find_some in H as [Hin Hname].
  split; [by apply list_elem_of_In|].
  by apply bool_decide_eq_true in Hname.
Qed.

Lemma first_call_named_is_Some name calls c :
  c ∈ calls → tool_name c = name →
  is_Some (Agent.first_call_named name calls).
Proof.
  unfold Agent.first_call_named. intros Hin Hname.
  destruct (find _ calls) eqn:Hfind; [by eexists|].
  apply list_elem_of_In in Hin.
  pose proof (find_none _ _ Hfind c Hin) as Hc. cbn in Hc.
  by apply bool_decide_eq_false in Hc.
Qed.

(** C5.  A free-text response ends the run with that text exactly when
    plain text is acceptable: with no result schema, or with one that
    allows text, the run ends with the text as its result; with a result
    schema that does not allow text, [PlainResponseForbidden] is appended
    after the response and the loop goes on to the next request. *)
Theorem free_text_response (self : Agent)
    (event_loop : list Message -> list nat)
    (agent_model : _models.AgentModel) (messages : list Message)
    (deps : AgentDeps) (fuel : nat) (content : string) :
  text_flag_consistent self →
  _models.request agent_model messages = LLMResponse content →
  let messages' := messages ++ [FromLLM (LLMResponse content)] in
  let ends_with_text :=
    Agent.loop (S fuel) self event_loop agent_model messages deps =
      Ended (Return (_result.mkRunResult (VStr content) messages'
                                         (_result.mkCost 0)))
            self messages' in
  let continues :=
    Agent._handle_model_response self (event_loop messages) messages
                                 (LLMResponse content) deps =
      (Return None, self, messages' ++ [PlainResponseForbidden]) ∧
    Agent.loop (S fuel) self event_loop agent_model messages deps =
      Agent.loop fuel self event_loop agent_model
                 (messages' ++ [PlainResponseForbidden]) deps in
  match _result_tool self with
  | None => ends_with_text
  | Some t =>
      if _result.allow_text_result t then ends_with_text else continues
  end.
Proof.
  intros Hflag Hreq. unfold text_flag_consistent in Hflag.
  cbn zeta. cbn [Agent.loop]. rewrite Hreq.
  unfold Agent._handle_model_response. rewrite Hflag.
  destruct (_result_tool self) as [t|]; [|reflexivity].
  destruct (_result.allow_text_result t); [reflexivity|].
  split; reflexivity.
Qed.

Lemma free_text_response_witness :
  Agent.loop 1 weather_agent in_call_order
             (scripted (fun _ => LLMResponse "It is sunny"))
             [UserPrompt "Weather?"] VNone =
    Running weather_agent
            [UserPrompt "Weather?"; FromLLM (LLMResponse "It is sunny");
             PlainResponseForbidden].
Proof.
  pose proof (free_text_response weather_agent in_call_order
    (scripted (fun _ => LLMResponse "It is sunny"))
    [UserPrompt "Weather?"] VNone 0 "It is sunny") as H.
  cbn zeta in H.
  destruct H as [_ H].
  - apply register_text_flag_consistent, init_text_flag_consistent.
  - reflexivity.
  - exact H.
Defined.

Lemma make_coros_unknown retrievers deps calls : ∀ coros,
  (∃ call, call ∈ calls ∧ retrievers !! tool_name call = None) →
  ∃ call, call ∈ calls ∧ retrievers !! tool_name call = None ∧
    Agent.make_coros retrievers deps calls coros =
      Raise (ValueError_unknown_function (tool_name call)).
Proof.
  induction calls as [|c calls IH]; intros coros (call & Hin & Hnone).
  - by apply elem_of_nil in Hin.
  - cbn [Agent.make_coros].
    destruct (retrievers !! tool_name c) as [r|] eqn:Hc.
    + apply elem_of_cons in Hin as [->|Hin]; [congruence|].
      destruct (IH (coros ++ [Retriever.Created deps c]))
        as (call' & Hin' & Hnone' & Heq); [by eauto|].
      exists call'. split_and!; [by apply elem_of_cons; right|done|done].
    + exists c. split_and!; [by apply elem_of_cons; left|done|done].
Qed.

(** C8.  In a turn of tool calls none of which names the result schema, a
    call whose [tool_name] is registered for no retriever makes
    [_handle_model_response] raise the [ValueError] for such a name: only
    the model's message has been appended, no retriever has run, and the
    run ends with that exception. *)
Theorem unknown_tool_name_is_fatal (self : Agent)
    (event_loop : list Message -> list nat)
    (agent_model : _models.AgentModel) (messages : list Message)
    (deps : AgentDeps) (fuel : nat) (calls : list ToolCall) :
  _models.request agent_model messages = LLMToolCalls calls →
  no_result_call self calls →
  (∃ call, call ∈ calls ∧ _retrievers self !! tool_name call = None) →
  ∃ call, call ∈ calls ∧ _retrievers self !! tool_name call = None ∧
    let messages' := messages ++ [FromLLM (LLMToolCalls calls)] in
    let fatal := ValueError_unknown_function (tool_name call) in
    Agent._handle_model_response self (event_loop messages) messages
                                 (LLMToolCalls calls) deps =
      (Raise fatal, self, messages') ∧
    Agent.loop (S fuel) self event_loop agent_model messages deps =
      Ended (Raise fatal) self messages'.
Proof.
  intros Hreq Hno Hunknown.
  destruct (make_coros_unknown (_retrievers self) deps calls [] Hunknown)
    as (call & Hin & Hnone & Hcoros).
  exists call. split_and!; [done|done|]. cbn zeta.
  assert (Hhandle :
    Agent._handle_model_response self (event_loop messages) messages
                                 (LLMToolCalls calls) deps =
      (Raise (ValueError_unknown_function (tool_name call)), self,
       messages ++ [FromLLM (LLMToolCalls calls)])).
  { unfold Agent._handle_model_response, no_result_call in *.
    destruct (_result_tool self) as [t|]; [rewrite Hno|];
      unfold Agent.run_retrievers; by rewrite Hcoros. }
  split; [done|]. cbn [Agent.loop]. by rewrite Hreq, Hhandle.
Qed.

Lemma unknown_tool_name_is_fatal_witness :
  ∃ call, call ∈ [call_paris; weather_call (VStr "Rome") "call-4";
                   mkToolCall "get_time" (ArgsJson "{}") None] ∧
    _retrievers weather_agent !! tool_name call = None ∧
    let messages' :=
      [UserPrompt "Weather?"] ++
      [FromLLM (LLMToolCalls
         [call_paris; weather_call (VStr "Rome") "call-4";
          mkToolCall "get_time" (ArgsJson "{}") None])] in
    let fatal := ValueError_unknown_function (tool_name call) in
    Agent._handle_model_response weather_agent
      (in_call_order [UserPrompt "Weather?"]) [UserPrompt "Weather?"]
      (LLMToolCalls [call_paris; weather_call (VStr "Rome") "call-4";
                     mkToolCall "get_time" (ArgsJson "{}") None]) VNone =
      (Raise fatal, weather_agent, messages') ∧
    Agent.loop 1 weather_agent in_call_order
      (scripted (fun _ => LLMToolCalls
         [call_paris; weather_call (VStr "Rome") "call-4";
          mkToolCall "get_time" (ArgsJson "{}") None]))
      [UserPrompt "Weather?"] VNone =
      Ended (Raise fatal) weather_agent messages'.
Proof.
  apply (unknown_tool_name_is_fatal weather_agent in_call_order
    (scripted (fun _ => LLMToolCalls
       [call_paris; weather_call (VStr "Rome") "call-4";
        mkToolCall "get_time" (ArgsJson "{}") None]))
    [UserPrompt "Weather?"] VNone 0).
  - reflexivity.
  - vm_compute. reflexivity.
  - exists (mkToolCall "get_time" (ArgsJson "{}") None).
    split; [set_solver|]. vm_compute. reflexivity.
Defined.

Lemma incr_result_retry_eq self :
  Agent._incr_result_retry self =
  (if decide (_current_result_retry self + 1 ≤ _max_result_retries self)
   then Return tt
   else Raise (RuntimeError_exceeded_result_retries
                 (_max_result_retries self)),
   set_current_result_retry self (_current_result_retry self + 1)).
Proof.
  unfold Agent._incr_result_retry.
  cbn [_current_result_retry _max_result_retries set_current_result_retry].
  destruct (Z.gtb_spec (_current_result_retry self + 1)
                       (_max_result_retries self));
    case_decide; try lia; reflexivity.
Qed.

(** C3.  In a turn of tool calls of which one names the result schema,
    the first such call alone is processed.  It is validated by the schema
    and the result validators: a result ends the turn with that value and
    nothing appended after the model's message; a [ToolRetryError] adds one
    to the result-retry counter and appends its retry message, the turn
    going on to the next request, or raises the [RuntimeError] with nothing
    appended when the counter exceeds the maximum; any other exception
    leaves the turn as it is.  Whatever the other calls and the order of
    resumptions are, outcome, agent and appended messages are those of the
    turn that holds this call only, and no retriever is touched. *)
Theorem result_call_is_authoritative (self : Agent) (schedule : list nat)
    (messages : list Message) (calls : list ToolCall) (deps : AgentDeps)
    (result_tool : _result.ResultSchema) :
  _result_tool self = Some result_tool →
  (∃ c, c ∈ calls ∧ tool_name c = _result.name result_tool) →
  ∃ call,
    Agent.first_call_named (_result.name result_tool) calls = Some call ∧
    call ∈ calls ∧ tool_name call = _result.name result_tool ∧
    (let messages' := messages ++ [FromLLM (LLMToolCalls calls)] in
     let counted :=
       set_current_result_retry self (_current_result_retry self + 1) in
     Agent._handle_model_response self schedule messages
                                  (LLMToolCalls calls) deps =
       match Agent.validate_result_call self result_tool deps call with
       | Return result => (Return (Some result), self, messages')
       | Raise (ToolRetryError tool_retry) =>
           if decide (_current_result_retry self + 1
                      ≤ _max_result_retries self)
           then (Return None, counted, messages' ++ [tool_retry])
           else (Raise (RuntimeError_exceeded_result_retries
                          (_max_result_retries self)), counted, messages')
       | Raise e => (Raise e, self, messages')
       end) ∧
    ∃ outcome self' extra,
      Agent._handle_model_response self schedule messages
                                   (LLMToolCalls calls) deps =
        (outcome, self',
         messages ++ [FromLLM (LLMToolCalls calls)] ++ extra) ∧
      Agent._handle_model_response self [] messages
                                   (LLMToolCalls [call]) deps =
        (outcome, self',
         messages ++ [FromLLM (LLMToolCalls [call])] ++ extra) ∧
      _retrievers self' = _retrievers self ∧
      (extra = [] ∨
       ∃ tool_retry,
         Agent.validate_result_call self result_tool deps call =
           Raise (ToolRetryError tool_retry) ∧
         extra = [tool_retry]).
Proof.
  intros Htool (c & Hc & Hname).
  destruct (first_call_named_is_Some _ _ _ Hc Hname) as [call Hfirst].
  destruct (first_call_named_Some _ _ _ Hfirst) as [Hin Hcall].
  assert (Hone :
    Agent.first_call_named (_result.name result_tool) [call] = Some call).
  { unfold Agent.first_call_named. cbn [find].
    by rewrite bool_decide_eq_true_2. }
  exists call. split_and!; [done|done|done| |].
  - cbn zeta. unfold Agent._handle_model_response.
    rewrite Htool, Hfirst.
    destruct (Agent.validate_result_call self result_tool deps call)
      as [result|e]; [done|].
    destruct e; try done.
    rewrite incr_result_retry_eq. by case_decide.
  - unfold Agent._handle_model_response.
    rewrite Htool, Hfirst, Hone.
    destruct (Agent.validate_result_call self result_tool deps call)
      as [result|e] eqn:Hvalid.
    + exists (Return (Some result)), self, [].
      by rewrite !app_nil_r; split_and!; eauto.
    + destruct e; try
        (eexists _, self, []; rewrite !app_nil_r; split_and!; by eauto).
      rewrite incr_result_retry_eq. case_decide.
      * eexists _, _, [tool_retry]. rewrite !(assoc_L (++)).
        split_and!; by eauto.
      * eexists _, _, []. rewrite !app_nil_r. split_and!; by eauto.
Qed.

Lemma result_call_is_authoritative_witness :
  let calls := [call_paris; result_call (VStr "42") "call-5"; call_123] in
  ∃ call,
    Agent.first_call_named (_result.name final_result) calls = Some call ∧
    call ∈ calls ∧ tool_name call = _result.name final_result ∧
    (let messages' :=
       [UserPrompt "Answer?"] ++ [FromLLM (LLMToolCalls calls)] in
     let counted :=
       set_current_result_retry weather_agent
         (_current_result_retry weather_agent + 1) in
     Agent._handle_model_response weather_agent [2; 0; 1]%nat
       [UserPrompt "Answer?"] (LLMToolCalls calls) VNone =
       match Agent.validate_result_call weather_agent final_result VNone
                                        call with
       | Return result => (Return (Some result), weather_agent, messages')
       | Raise (ToolRetryError tool_retry) =>
           if decide (_current_result_retry weather_agent + 1
                      ≤ _max_result_retries weather_agent)
           then (Return None, counted, messages' ++ [tool_retry])
           else (Raise (RuntimeError_exceeded_result_retries
                          (_max_result_retries weather_agent)), counted,
                 messages')
       | Raise e => (Raise e, weather_agent, messages')
       end) ∧
    ∃ outcome self' extra,
      Agent._handle_model_response weather_agent [2; 0; 1]%nat
        [UserPrompt "Answer?"] (LLMToolCalls calls) VNone =
        (outcome, self',
         [UserPrompt "Answer?"] ++ [FromLLM (LLMToolCalls calls)] ++ extra) ∧
      Agent._handle_model_response weather_agent [] [UserPrompt "Answer?"]
        (LLMToolCalls [call]) VNone =
        (outcome, self',
         [UserPrompt "Answer?"] ++ [FromLLM (LLMToolCalls [call])] ++
         extra) ∧
      _retrievers self' = _retrievers weather_agent ∧
      (extra = [] ∨
       ∃ tool_retry,
         Agent.validate_result_call weather_agent final_result VNone call =
           Raise (ToolRetryError tool_retry) ∧
         extra = [tool_retry]).
Proof.
  intros calls.
  apply (result_call_is_authoritative weather_agent [2; 0; 1]%nat
    [UserPrompt "Answer?"] calls VNone final_result).
  - reflexivity.
  - exists (result_call (VStr "42") "call-5"). split; [|reflexivity].
    apply elem_of_cons. right. apply elem_of_cons. by left.
Defined.

Example result_call_turn :
  Agent._handle_model_response weather_agent [2; 0; 1]%nat
    [UserPrompt "Answer?"]
    (LLMToolCalls [call_paris; result_call (VStr "42") "call-5"; call_123])
    VNone =
    (Return None, set_current_result_retry weather_agent 1,
     [UserPrompt "Answer?";
      FromLLM (LLMToolCalls
        [call_paris; result_call (VStr "42") "call-5"; call_123]);
      ToolRetry "final_result" (FieldErrors [answer_error]) (Some "call-5")]).
Proof. vm_compute. reflexivity. Qed.

(** ** The result-retry counter *)

Lemma run_retrievers_result_retry self schedule messages calls deps :
  let r := Agent.run_retrievers self schedule messages calls deps in
  _current_result_retry r.1.2 = _current_result_retry self ∧
  _max_result_retries r.1.2 = _max_result_retries self.
Proof.
  unfold Agent.run_retrievers. repeat case_match; done.
Qed.

(** A turn leaves the counter as it is or adds one to it. *)
Lemma handle_result_retry self schedule messages llm_message deps :
  let r :=
    Agent._handle_model_response self schedule messages llm_message deps in
  (_current_result_retry r.1.2 = _current_result_retry self ∨
   _current_result_retry r.1.2 = _current_result_retry self + 1) ∧
  _max_result_retries r.1.2 = _max_result_retries self.
Proof.
  pose proof (run_retrievers_result_retry self schedule
    (messages ++ [FromLLM llm_message])) as Hrun.
  unfold Agent._handle_model_response.
  destruct llm_message as [content|calls].
  - case_match; cbn; auto.
  - destruct (_result_tool self) as [t|];
      [|destruct (Hrun calls deps) as [-> ->]; auto].
    destruct (Agent.first_call_named _ calls) as [call|];
      [|destruct (Hrun calls deps) as [-> ->]; auto].
    destruct (Agent.validate_result_call self t deps call) as [result|e];
      [cbn; auto|].
    destruct e; cbn; auto.
    rewrite incr_result_retry_eq. case_decide; cbn; auto.
Qed.

(** Over any number of turns the counter never decreases. *)
Lemma loop_result_retry fuel : ∀ self event_loop agent_model messages deps,
  let st := Agent.loop fuel self event_loop agent_model messages deps in
  _current_result_retry self ≤ _current_result_retry (agent_of st) ∧
  _max_result_retries (agent_of st) = _max_result_retries self.
Proof.
  induction fuel as [|fuel IH]; intros self event_loop agent_model messages
    deps; cbn [Agent.loop]; [cbn; split; [lia|done]|].
  pose proof (handle_result_retry self (event_loop messages) messages
    (_models.request agent_model messages) deps) as H. cbn zeta in H.
  destruct (Agent._handle_model_response _ _ _ _ _) as [[o self'] messages'].
  cbn [fst snd] in H. destruct H as [Hc Hmax].
  destruct o as [[value|]|e]; cbn [agent_of]; try (split; [lia|done]).
  specialize (IH self' event_loop agent_model messages' deps).
  cbn zeta in IH. destruct IH as [IHc IHmax]. split; [lia|congruence].
Qed.

(** C6.  A turn whose result call fails validation (the schema's or a
    result validator's [ToolRetryError]) adds one to the agent's
    result-retry counter.  If the counter then exceeds
    [_max_result_retries] the run ends with the [RuntimeError], nothing
    appended for the call; otherwise the retry message is appended and the
    loop goes on with the incremented counter, which no later turn of the
    run lowers. *)
Theorem result_retry_counter_spans_the_run (self : Agent)
    (event_loop : list Message -> list nat)
    (agent_model : _models.AgentModel) (messages : list Message)
    (deps : AgentDeps) (calls : list ToolCall)
    (result_tool : _result.ResultSchema) (call : ToolCall)
    (tool_retry : Message) :
  _models.request agent_model messages = LLMToolCalls calls →
  _result_tool self = Some result_tool →
  Agent.first_call_named (_result.name result_tool) calls = Some call →
  Agent.validate_result_call self result_tool deps call =
    Raise (ToolRetryError tool_retry) →
  let self' :=
    set_current_result_retry self (_current_result_retry self + 1) in
  let messages' := messages ++ [FromLLM (LLMToolCalls calls)] in
  (∀ fuel,
     Agent.loop (S fuel) self event_loop agent_model messages deps =
       if decide (_current_result_retry self + 1 ≤ _max_result_retries self)
       then Agent.loop fuel self' event_loop agent_model
                       (messages' ++ [tool_retry]) deps
       else Ended (Raise (RuntimeError_exceeded_result_retries
                            (_max_result_retries self)))
                  self' messages') ∧
  (∀ fuel,
     _current_result_retry self + 1 ≤
       _current_result_retry
         (agent_of (Agent.loop (S fuel) self event_loop agent_model
                               messages deps))).
Proof.
  intros Hreq Htool Hfirst Hvalid self' messages'.
  assert (Hstep : ∀ fuel,
    Agent.loop (S fuel) self event_loop agent_model messages deps =
      if decide (_current_result_retry self + 1 ≤ _max_result_retries self)
      then Agent.loop fuel self' event_loop agent_model
                      (messages' ++ [tool_retry]) deps
      else Ended (Raise (RuntimeError_exceeded_result_retries
                           (_max_result_retries self)))
                 self' messages').
  { intros fuel. cbn [Agent.loop]. rewrite Hreq.
    unfold Agent._handle_model_response.
    rewrite Htool, Hfirst, Hvalid, incr_result_retry_eq.
    case_decide; reflexivity. }
  split; [exact Hstep|]. intros fuel. rewrite Hstep. case_decide.
  - pose proof (loop_result_retry fuel self' event_loop agent_model
      (messages' ++ [tool_retry]) deps) as [Hle _]. exact Hle.
  - cbn. lia.
Qed.

Lemma result_retry_counter_spans_the_run_witness :
  let self := weather_agent in
  let calls := [result_call (VStr "42") "call-5"; call_paris] in
  let tool_retry :=
    ToolRetry "final_result" (FieldErrors [answer_error]) (Some "call-5") in
  let agent_model := scripted (fun _ => LLMToolCalls calls) in
  let self' :=
    set_current_result_retry self (_current_result_retry self + 1) in
  let messages' := [UserPrompt "Answer?"] ++ [FromLLM (LLMToolCalls calls)] in
  (∀ fuel,
     Agent.loop (S fuel) self in_call_order agent_model
                [UserPrompt "Answer?"] VNone =
       if decide (_current_result_retry self + 1 ≤ _max_result_retries self)
       then Agent.loop fuel self' in_call_order agent_model
                       (messages' ++ [tool_retry]) VNone
       else Ended (Raise (RuntimeError_exceeded_result_retries
                            (_max_result_retries self)))
                  self' messages') ∧
  (∀ fuel,
     _current_result_retry self + 1 ≤
       _current_result_retry
         (agent_of (Agent.loop (S fuel) self in_call_order agent_model
                               [UserPrompt "Answer?"] VNone))).
Proof.
  intros self calls tool_retry agent_model.
  apply (result_retry_counter_spans_the_run self in_call_order agent_model
    [UserPrompt "Answer?"] VNone calls final_result
    (result_call (VStr "42") "call-5") tool_retry); reflexivity.
Defined.

Lemma init_result_retry_zero model result_tool system_prompt deps retries
    result_retries :
  _current_result_retry
    (Agent.__init__ model result_tool system_prompt deps retries
                    result_retries) = 0.
Proof. reflexivity. Qed.

Lemma register_result_retry self retriever retries :
  _current_result_retry
    (snd (Agent._register_retriever self retriever retries)) =
  _current_result_retry self.
Proof. unfold Agent._register_retriever. repeat case_match; done. Qed.

Lemma before_loop_result_retry self user_prompt message_history model deps
    self' agent_model messages deps' :
  Agent.before_loop self user_prompt message_history model deps =
    Return (self', agent_model, messages, deps') →
  _current_result_retry self' = _current_result_retry self ∧
  _max_result_retries self' = _max_result_retries self.
Proof.
  unfold Agent.before_loop. intros H.
  repeat case_match; simplify_eq; done.
Qed.

Lemma run_result_retry self event_loop fuel user_prompt message_history
    model deps :
  let st :=
    Agent.run self event_loop fuel user_prompt message_history model deps in
  _current_result_retry self ≤ _current_result_retry (agent_of st) ∧
  _max_result_retries (agent_of st) = _max_result_retries self.
Proof.
  unfold Agent.run.
  destruct (Agent.before_loop self user_prompt message_history model deps)
    as [[[[self' agent_model] messages] deps']|e] eqn:Hbefore;
    [|cbn; split; [lia|done]].
  apply before_loop_result_retry in Hbefore as [Hc Hmax].
  pose proof (loop_result_retry fuel self' event_loop agent_model messages
    deps') as [Hc' Hmax']. cbn zeta. split; [lia|congruence].
Qed.

(** C10.  [_current_result_retry] is zero as [__init__] leaves it, and
    [run] never sets it back: an instance that leaves an earlier run with
    retries consumed enters the loop of its next run with the counter at
    that value, so with fewer retries left than [_max_result_retries]; and
    that run can only raise the counter further. *)
Theorem result_retries_accumulate_across_runs (a0 : Agent)
    (event_loop1 : list Message -> list nat) (fuel1 : nat) (prompt1 : string)
    (history1 : option (list Message)) (model1 : option _models.Model)
    (deps1 : option AgentDeps) (prompt2 : string)
    (history2 : option (list Message)) (model2 : option _models.Model)
    (deps2 : option AgentDeps) (self2 : Agent)
    (agent_model : _models.AgentModel) (messages : list Message)
    (deps : AgentDeps) :
  _current_result_retry a0 = 0 →
  let a1 :=
    agent_of (Agent.run a0 event_loop1 fuel1 prompt1 history1 model1 deps1) in
  Agent.before_loop a1 prompt2 history2 model2 deps2 =
    Return (self2, agent_model, messages, deps) →
  (∀ model result_tool system_prompt default_deps retries result_retries,
     _current_result_retry
       (Agent.__init__ model result_tool system_prompt default_deps retries
                       result_retries) = 0) ∧
  0 ≤ _current_result_retry a1 ∧
  _current_result_retry self2 = _current_result_retry a1 ∧
  _max_result_retries self2 = _max_result_retries a0 ∧
  (0 < _current_result_retry a1 →
   _max_result_retries self2 - _current_result_retry self2
     < _max_result_retries a0) ∧
  (∀ event_loop2 fuel2,
     _current_result_retry a1 ≤
       _current_result_retry
         (agent_of (Agent.run a1 event_loop2 fuel2 prompt2 history2 model2
                              deps2))).
Proof.
  intros Hzero a1 Hbefore.
  pose proof (run_result_retry a0 event_loop1 fuel1 prompt1 history1 model1
    deps1) as [Hc1 Hmax1]. subst a1.
  apply before_loop_result_retry in Hbefore as [Hc2 Hmax2].
  split_and!; [done|lia|lia|lia|lia|].
  - intros event_loop2 fuel2.
    apply (run_result_retry _ event_loop2 fuel2 prompt2 history2 model2
             deps2).
Qed.

Example weather_agent_after_run_consumed :
  _current_result_retry weather_agent_after_run = 1 ∧
  _max_result_retries weather_agent_after_run = 1.
Proof. split; vm_compute; reflexivity. Qed.

(** The first run ends with the answer after one retry; the second run, on
    the same instance and against the same model, is fatal at its first
    failure although [_max_result_retries] is 1. *)
Example second_run_has_no_retry_left :
  Agent.run weather_agent in_call_order 2 "Answer?" (Some [])
            (Some (scripted_model retry_then_answer)) None =
    Ended (Return (_result.mkRunResult (VInt 42)
             [UserPrompt "Answer?";
              FromLLM (LLMToolCalls [result_call (VStr "42") "call-5"]);
              ToolRetry "final_result" (FieldErrors [answer_error])
                        (Some "call-5");
              FromLLM (LLMToolCalls [result_call (VInt 42) "call-6"])]
             (_result.mkCost 0)))
          weather_agent_after_run
          [UserPrompt "Answer?";
           FromLLM (LLMToolCalls [result_call (VStr "42") "call-5"]);
           ToolRetry "final_result" (FieldErrors [answer_error])
                     (Some "call-5");
           FromLLM (LLMToolCalls [result_call (VInt 42) "call-6"])] ∧
  Agent.run weather_agent_after_run in_call_order 2 "Answer?" (Some [])
            (Some (scripted_model retry_then_answer)) None =
    Ended (Raise (RuntimeError_exceeded_result_retries 1))
          (set_current_result_retry weather_agent_after_run 2)
          [UserPrompt "Answer?";
           FromLLM (LLMToolCalls [result_call (VStr "42") "call-5"])].
Proof. split; vm_compute; reflexivity. Qed.

Lemma result_retries_accumulate_across_runs_witness :
  let a1 := weather_agent_after_run in
  let self2 :=
    set_retrievers a1 (Retriever.reset <$> _retrievers a1) in
  (∀ model result_tool system_prompt default_deps retries result_retries,
     _current_result_retry
       (Agent.__init__ model result_tool system_prompt default_deps retries
                       result_retries) = 0) ∧
  0 ≤ _current_result_retry a1 ∧
  _current_result_retry self2 = _current_result_retry a1 ∧
  _max_result_retries self2 = _max_result_retries weather_agent ∧
  (0 < _current_result_retry a1 →
   _max_result_retries self2 - _current_result_retry self2
     < _max_result_retries weather_agent) ∧
  (∀ event_loop2 fuel2,
     _current_result_retry a1 ≤
       _current_result_retry
         (agent_of (Agent.run a1 event_loop2 fuel2 "Answer?" (Some [])
                              (Some (scripted_model retry_then_answer))
                              None))).
Proof.
  intros a1 self2.
  apply (result_retries_accumulate_across_runs weather_agent in_call_order 2
    "Answer?" (Some []) (Some (scripted_model retry_then_answer)) None
    "Answer?" (Some []) (Some (scripted_model retry_then_answer)) None
    self2 (scripted retry_then_answer) [UserPrompt "Answer?"] VNone).
  - unfold weather_agent.
    rewrite register_result_retry. apply init_result_retry_zero.
  - reflexivity.
Defined.


(** ** asyncio.gather *)

Lemma resume_task_for self c c' self' call :
  task_for call c →
  Retriever.resume self c = (Return c', self') →
  task_for call c' ∧ (steps_left c' ≤ pred (steps_left c))%nat.
Proof.
  destruct c as [deps message|message awaited|m]; cbn [task_for];
    intros Hc Hr; cbn [Retriever.resume] in Hr.
  - subst message.
    destruct (Retriever.validate_args self call) as [errors|args_dict].
    + rewrite on_error_eq in Hr. case_decide; simplify_eq.
      split; [right; by eexists|cbn; lia].
    + destruct (Retriever._call_args self deps args_dict) as [[a k]|e];
        simplify_eq. split; [done|cbn; lia].
  - subst message. unfold Retriever.after_function in Hr.
    destruct awaited as [content|m|e]; [| |simplify_eq].
    + simplify_eq. split; [left; by eexists|cbn; lia].
    + rewrite on_error_eq in Hr. case_decide; simplify_eq.
      split; [right; by eexists|cbn; lia].
  - simplify_eq. split; [done|cbn; lia].
Qed.

Lemma resume_task_task_for retrievers c c' retrievers' call :
  task_for call c →
  asyncio.resume_task retrievers c = (Return c', retrievers') →
  task_for call c' ∧ (steps_left c' ≤ pred (steps_left c))%nat.
Proof.
  unfold asyncio.resume_task. intros Hc Hr.
  destruct (asyncio.task_key c) as [key|] eqn:Hkey.
  - destruct (retrievers !! key) as [self|]; [|simplify_eq].
    destruct (Retriever.resume self c) as [[c1|e] self1] eqn:Hres;
      simplify_eq.
    by apply (resume_task_for self c c' self1).
  - simplify_eq. split; [done|]. destruct c'; cbn in *; try done; lia.
Qed.

Lemma run_schedule_app a b : ∀ tasks retrievers,
  asyncio.run_schedule (a ++ b) tasks retrievers =
  match asyncio.run_schedule a tasks retrievers with
  | (Raise e, retrievers) => (Raise e, retrievers)
  | (Return tasks, retrievers) => asyncio.run_schedule b tasks retrievers
  end.
Proof.
  induction a as [|i a IH]; intros tasks retrievers; [done|].
  cbn [app asyncio.run_schedule].
  destruct (tasks !! i) as [c|]; [|apply IH].
  destruct (asyncio.resume_task retrievers c) as [[c'|e] retrievers'];
    [apply IH|done].
Qed.

(** A schedule keeps every task the coroutine of its call, never undoes a
    resumption, and takes a step off each task it names. *)
Lemma run_schedule_tasks schedule : ∀ calls tasks retrievers tasks' retrievers',
  Forall2 task_for calls tasks →
  asyncio.run_schedule schedule tasks retrievers =
    (Return tasks', retrievers') →
  Forall2 task_for calls tasks' ∧
  ∀ i c, tasks !! i = Some c →
    ∃ c', tasks' !! i = Some c' ∧
      (steps_left c' ≤ steps_left c)%nat ∧
      (i ∈ schedule → (steps_left c' ≤ pred (steps_left c))%nat).
Proof.
  induction schedule as [|j schedule IH];
    intros calls tasks retrievers tasks' retrievers' Hfor Hrun.
  - cbn in Hrun. simplify_eq. split; [done|].
    intros i c Hi. exists c. split_and!; [done|lia|].
    intros Hin. by apply elem_of_nil in Hin.
  - cbn [asyncio.run_schedule] in Hrun.
    destruct (tasks !! j) as [cj|] eqn:Hj.
    + destruct (asyncio.resume_task retrievers cj) as [[cj'|e] retrievers1]
        eqn:Hres; [|simplify_eq].
      destruct (Forall2_lookup_r _ _ _ _ _ Hfor Hj) as (call & Hcall & Hcj).
      destruct (resume_task_task_for _ _ _ _ _ Hcj Hres) as [Hcj' Hsteps].
      assert (Hfor1 : Forall2 task_for calls (<[j := cj']> tasks)).
      { rewrite <- (list_insert_id calls j call Hcall).
        by apply Forall2_insert. }
      destruct (IH _ _ _ _ _ Hfor1 Hrun) as [Hfor' Hstep]. split; [done|].
      intros i c Hi. destruct (decide (i = j)) as [->|Hne].
      * assert (c = cj) as -> by congruence.
        destruct (Hstep j cj') as (c' & Hc' & Hle & _).
        { apply list_lookup_insert_eq. by eapply lookup_lt_Some. }
        exists c'. split_and!; [done|lia|lia].
      * destruct (Hstep i c) as (c' & Hc' & Hle & Hin).
        { by rewrite list_lookup_insert_ne. }
        exists c'. split_and!; [done|done|].
        intros Hi'. apply elem_of_cons in Hi' as [?|Hi']; [done|auto].
    + destruct (IH _ _ _ _ _ Hfor Hrun) as [Hfor' Hstep]. split; [done|].
      intros i c Hi. destruct (Hstep i c Hi) as (c' & Hc' & Hle & Hin).
      exists c'. split_and!; [done|done|].
      intros Hi'. apply elem_of_cons in Hi' as [->|Hi']; [congruence|auto].
Qed.

Lemma results_of_done calls tasks :
  Forall2 task_for calls tasks →
  (∀ i c, tasks !! i = Some c → steps_left c = 0%nat) →
  Forall2 answers calls (omap asyncio.result tasks).
Proof.
  induction 1 as [|call c calls tasks Hc Hfor IH]; intros Hdone; [done|].
  pose proof (Hdone 0%nat c eq_refl) as Hc0.
  destruct c as [| |m]; try discriminate Hc0.
  cbn. constructor; [done|].
  apply IH. intros i c Hi. by apply (Hdone (S i)).
Qed.

(** What [gather] returns, under any schedule: a result per coroutine, in
    the order of the coroutines. *)
Lemma gather_in_order schedule calls coros retrievers results retrievers' :
  Forall2 task_for calls coros →
  asyncio.gather schedule coros retrievers = (Return results, retrievers') →
  Forall2 answers calls results.
Proof.
  unfold asyncio.gather. intros Hfor Hg.
  rewrite run_schedule_app in Hg.
  destruct (asyncio.run_schedule schedule coros retrievers)
    as [[tasks1|e] retrievers1] eqn:H1; [|simplify_eq].
  rewrite run_schedule_app in Hg.
  destruct (asyncio.run_schedule (seq 0 (length coros)) tasks1 retrievers1)
    as [[tasks2|e] retrievers2] eqn:H2; [|simplify_eq].
  destruct (asyncio.run_schedule (seq 0 (length coros)) tasks2 retrievers2)
    as [[tasks3|e] retrievers3] eqn:H3; simplify_eq.
  destruct (run_schedule_tasks _ _ _ _ _ _ Hfor H1) as [Hfor1 Hs1].
  destruct (run_schedule_tasks _ _ _ _ _ _ Hfor1 H2) as [Hfor2 Hs2].
  destruct (run_schedule_tasks _ _ _ _ _ _ Hfor2 H3) as [Hfor3 Hs3].
  apply results_of_done; [done|]. intros i c3 Hi.
  assert (Hlt : (i < length coros)%nat).
  { rewrite <- (Forall2_length _ _ _ Hfor), (Forall2_length _ _ _ Hfor3).
    by eapply lookup_lt_Some. }
  destruct (lookup_lt_is_Some_2 coros i Hlt) as [c0 Hc0].
  destruct (Hs1 i c0 Hc0) as (c1 & Hc1 & Hle1 & _).
  destruct (Hs2 i c1 Hc1) as (c2 & Hc2 & _ & Hle2).
  destruct (Hs3 i c2 Hc2) as (c3' & Hc3 & _ & Hle3).
  assert (c3' = c3) as -> by congruence.
  assert (Hin : i ∈ seq 0 (length coros)) by (apply elem_of_seq; lia).
  specialize (Hle2 Hin). specialize (Hle3 Hin).
  destruct c0, c1, c2, c3; cbn in *; lia.
Qed.

Lemma make_coros_Return retrievers deps calls : ∀ coros0 coros,
  Agent.make_coros retrievers deps calls coros0 = Return coros →
  coros = coros0 ++ (Retriever.Created deps <$> calls) ∧
  ∀ call, call ∈ calls → is_Some (retrievers !! tool_name call).
Proof.
  induction calls as [|c calls IH]; intros coros0 coros Hm;
    cbn [Agent.make_coros] in Hm.
  - simplify_eq. rewrite app_nil_r. split; [done|].
    intros call Hin. by apply elem_of_nil in Hin.
  - destruct (retrievers !! tool_name c) as [r|] eqn:Hc; [|simplify_eq].
    destruct (IH _ _ Hm) as [-> Hall]. split.
    + by rewrite <- (assoc_L (++)).
    + intros call Hin. apply elem_of_cons in Hin as [->|Hin]; [by eexists|].
      by apply Hall.
Qed.

Lemma created_task_for deps calls :
  Forall2 task_for calls (Retriever.Created deps <$> calls).
Proof. induction calls; constructor; done. Qed.

(** The dispatch of a turn's calls, when it returns. *)
Lemma run_retrievers_Return self schedule messages calls deps outcome self'
    messages' :
  Agent.run_retrievers self schedule messages calls deps =
    (Return outcome, self', messages') →
  outcome = None ∧
  ∃ results, messages' = messages ++ results ∧ Forall2 answers calls results.
Proof.
  unfold Agent.run_retrievers. intros H.
  destruct (Agent.make_coros _ deps calls []) as [coros|e] eqn:Hcoros;
    [|simplify_eq].
  apply make_coros_Return in Hcoros as [-> _]. cbn [app] in H.
  destruct (asyncio.gather schedule _ (_retrievers self))
    as [[results|e] retrievers'] eqn:Hg; simplify_eq.
  split; [done|]. exists results. split; [done|].
  eapply gather_in_order; [apply created_task_for|exact Hg].
Qed.

(** C4.  In a turn of tool calls that is dispatched to the retrievers,
    whatever order the event loop resumes and completes the coroutines in,
    when the dispatch returns the messages appended after the model's
    message are one result per call, in the order of the calls, each the
    [ToolReturn] or [ToolRetry] carrying its call's [tool_name] and
    [tool_id]; the next request of the loop is made on the conversation
    that holds them all. *)
Theorem tool_results_in_call_order (self : Agent)
    (event_loop : list Message -> list nat)
    (agent_model : _models.AgentModel) (messages : list Message)
    (deps : AgentDeps) (calls : list ToolCall)
    (outcome : option ResultData) (self' : Agent)
    (messages' : list Message) :
  _models.request agent_model messages = LLMToolCalls calls →
  no_result_call self calls →
  Agent._handle_model_response self (event_loop messages) messages
                               (LLMToolCalls calls) deps =
    (Return outcome, self', messages') →
  outcome = None ∧
  (∃ results,
     messages' = messages ++ [FromLLM (LLMToolCalls calls)] ++ results ∧
     Forall2 answers calls results) ∧
  (∀ fuel,
     Agent.loop (S fuel) self event_loop agent_model messages deps =
       Agent.loop fuel self' event_loop agent_model messages' deps).
Proof.
  intros Hreq Hno Hhandle.
  assert (Hrun :
    Agent.run_retrievers self (event_loop messages)
      (messages ++ [FromLLM (LLMToolCalls calls)]) calls deps =
      (Return outcome, self', messages')).
  { unfold Agent._handle_model_response, no_result_call in *.
    destruct (_result_tool self) as [t|]; [rewrite Hno in Hhandle|]; done. }
  apply run_retrievers_Return in Hrun as (-> & results & -> & Hans).
  split_and!; [done| |].
  - exists results. by rewrite <- (assoc_L (++)).
  - intros fuel. cbn [Agent.loop]. by rewrite Hreq, Hhandle.
Qed.

Example abc_turn :
  Agent._handle_model_response abc_agent (b_first_a_last [UserPrompt "?"])
    [UserPrompt "?"] (LLMToolCalls abc_calls) VNone =
    (Return None,
     set_retrievers abc_agent
       (<["B" := city_tool "B" 1 1]> (_retrievers abc_agent)),
     [UserPrompt "?"; FromLLM (LLMToolCalls abc_calls);
      ToolReturn "A" "Sunny in Paris" (Some "a");
      ToolRetry "B" (RetryText "No such city, try another one") (Some "b");
      ToolReturn "C" "Sunny in Rome" (Some "c")]).
Proof. vm_compute. reflexivity. Qed.

Lemma tool_results_in_call_order_witness :
  ∃ results,
    [UserPrompt "?"; FromLLM (LLMToolCalls abc_calls);
     ToolReturn "A" "Sunny in Paris" (Some "a");
     ToolRetry "B" (RetryText "No such city, try another one") (Some "b");
     ToolReturn "C" "Sunny in Rome" (Some "c")] =
      [UserPrompt "?"] ++ [FromLLM (LLMToolCalls abc_calls)] ++ results ∧
    Forall2 answers abc_calls results.
Proof.
  apply (tool_results_in_call_order abc_agent b_first_a_last
    (scripted (fun _ => LLMToolCalls abc_calls)) [UserPrompt "?"] VNone
    abc_calls None
    (set_retrievers abc_agent
       (<["B" := city_tool "B" 1 1]> (_retrievers abc_agent)))).
  - reflexivity.
  - exact I.
  - vm_compute. reflexivity.
Defined.

(** ** The retry counters of the tools over a run *)

Lemma resume_task_frame retrievers c o retrievers' key :
  asyncio.resume_task retrievers c = (o, retrievers') →
  asyncio.task_key c ≠ Some key →
  retrievers' !! key = retrievers !! key.
Proof.
  unfold asyncio.resume_task. intros Hr Hkey.
  destruct (asyncio.task_key c) as [k|]; [|by simplify_eq].
  destruct (retrievers !! k) as [self|]; [|by simplify_eq].
  destruct (Retriever.resume self c) as [[c1|e] self1]; simplify_eq;
    apply lookup_insert_ne; congruence.
Qed.

Lemma task_for_key call c key :
  task_for call c → tool_name call ≠ key → asyncio.task_key c ≠ Some key.
Proof. destruct c; cbn; intros; simplify_eq; congruence. Qed.

Lemma run_schedule_frame schedule key :
  ∀ calls tasks retrievers o retrievers',
  Forall2 task_for calls tasks →
  (∀ call, call ∈ calls → tool_name call ≠ key) →
  asyncio.run_schedule schedule tasks retrievers = (o, retrievers') →
  retrievers' !! key = retrievers !! key.
Proof.
  induction schedule as [|j schedule IH];
    intros calls tasks retrievers o retrievers' Hfor Hkey Hrun;
    cbn [asyncio.run_schedule] in Hrun; [by simplify_eq|].
  destruct (tasks !! j) as [cj|] eqn:Hj; [|by eapply IH].
  destruct (Forall2_lookup_r _ _ _ _ _ Hfor Hj) as (call & Hcall & Hcj).
  assert (Hne : asyncio.task_key cj ≠ Some key).
  { eapply task_for_key; [done|].
    apply Hkey, list_elem_of_lookup. by eexists. }
  destruct (asyncio.resume_task retrievers cj) as [[cj'|e] retrievers1]
    eqn:Hres.
  - destruct (resume_task_task_for _ _ _ _ _ Hcj Hres) as [Hcj' _].
    rewrite <- (resume_task_frame _ _ _ _ _ Hres Hne).
    eapply IH; [| |done]; [|done].
    rewrite <- (list_insert_id calls j call Hcall). by apply Forall2_insert.
  - simplify_eq. by eapply resume_task_frame.
Qed.

Lemma gather_frame schedule calls coros retrievers o retrievers' key :
  Forall2 task_for calls coros →
  (∀ call, call ∈ calls → tool_name call ≠ key) →
  asyncio.gather schedule coros retrievers = (o, retrievers') →
  retrievers' !! key = retrievers !! key.
Proof.
  unfold asyncio.gather. intros Hfor Hkey Hg.
  destruct (asyncio.run_schedule _ coros retrievers)
    as [[tasks|e] retrievers1] eqn:Hrun; simplify_eq;
    by eapply run_schedule_frame.
Qed.

(** A turn leaves the retriever of every tool it does not call as it is. *)
Lemma handle_frame self schedule messages llm_message deps key :
  (∀ calls call,
     llm_message = LLMToolCalls calls → call ∈ calls →
     tool_name call ≠ key) →
  _retrievers
    (Agent._handle_model_response self schedule messages llm_message
                                  deps).1.2 !! key =
  _retrievers self !! key.
Proof.
  intros Hkey.
  assert (Hrun : ∀ calls msgs,
    llm_message = LLMToolCalls calls →
    _retrievers (Agent.run_retrievers self schedule msgs calls deps).1.2
      !! key = _retrievers self !! key).
  { intros calls msgs ->. unfold Agent.run_retrievers.
    destruct (Agent.make_coros _ deps calls []) as [coros|e] eqn:Hcoros;
      [|done].
    apply make_coros_Return in Hcoros as [-> _]. cbn [app].
    destruct (asyncio.gather schedule _ (_retrievers self))
      as [[results|e] retrievers'] eqn:Hg; cbn;
      (eapply gather_frame; [apply created_task_for| |exact Hg]);
      intros call Hin; by eapply Hkey. }
  unfold Agent._handle_model_response.
  destruct llm_message as [content|calls]; [by case_match|].
  destruct (_result_tool self) as [t|]; [|by apply Hrun].
  destruct (Agent.first_call_named _ calls) as [call|]; [|by apply Hrun].
  destruct (Agent.validate_result_call self t deps call) as [result|e];
    [done|].
  destruct e; try done. rewrite incr_result_retry_eq. by case_decide.
Qed.

(** *** A batch of one call *)

Lemma resume_task_done retrievers c :
  steps_left c = 0%nat →
  asyncio.resume_task retrievers c = (Return c, retrievers).
Proof. by destruct c. Qed.

Lemma resume_task_steps retrievers c c' retrievers' :
  asyncio.resume_task retrievers c = (Return c', retrievers') →
  (steps_left c' ≤ pred (steps_left c))%nat.
Proof.
  unfold asyncio.resume_task. intros Hr.
  destruct (asyncio.task_key c) as [key|] eqn:Hkey;
    [|destruct c; simplify_eq; cbn; lia].
  destruct (retrievers !! key) as [self|]; [|simplify_eq].
  destruct (Retriever.resume self c) as [[c1|e] self1] eqn:Hres; simplify_eq.
  destruct c as [deps message|message awaited|m]; [| |done];
    cbn in Hres; repeat case_match; simplify_eq; cbn; lia.
Qed.

(** Resumptions beyond those a task needs change nothing. *)
Lemma drain_extra k : ∀ c retrievers,
  (steps_left c ≤ k)%nat →
  asyncio.run_schedule (repeat 0%nat (S k)) [c] retrievers =
  asyncio.run_schedule (repeat 0%nat k) [c] retrievers.
Proof.
  induction k as [|k IH]; intros c retrievers Hk.
  - cbn. rewrite resume_task_done by lia. done.
  - change (repeat 0%nat (S (S k))) with (0%nat :: repeat 0%nat (S k)).
    change (repeat 0%nat (S k)) with (0%nat :: repeat 0%nat k) at 2.
    cbn [asyncio.run_schedule lookup list_lookup].
    destruct (asyncio.resume_task retrievers c) as [[c1|e] retrievers1]
      eqn:Hres; [|done].
    apply resume_task_steps in Hres. cbn [insert list_insert].
    apply IH. lia.
Qed.

Lemma single_schedule schedule : ∀ k c retrievers,
  (steps_left c ≤ k)%nat →
  asyncio.run_schedule (schedule ++ repeat 0%nat k) [c] retrievers =
  asyncio.run_schedule (repeat 0%nat k) [c] retrievers.
Proof.
  induction schedule as [|j schedule IH]; intros k c retrievers Hk; [done|].
  cbn [app asyncio.run_schedule]. destruct j as [|j]; [|by apply IH].
  cbn [lookup list_lookup].
  destruct (asyncio.resume_task retrievers c) as [[c1|e] retrievers1]
    eqn:Hres.
  - cbn [insert list_insert]. pose proof (resume_task_steps _ _ _ _ Hres).
    rewrite IH by lia. destruct k as [|k].
    + rewrite resume_task_done in Hres by lia. by simplify_eq.
    + rewrite drain_extra by lia.
      change (repeat 0%nat (S k)) with (0%nat :: repeat 0%nat k).
      cbn [asyncio.run_schedule lookup list_lookup]. by rewrite Hres.
  - destruct k as [|k].
    + rewrite resume_task_done in Hres by lia. simplify_eq.
    + change (repeat 0%nat (S k)) with (0%nat :: repeat 0%nat k).
      cbn [asyncio.run_schedule lookup list_lookup]. by rewrite Hres.
Qed.

(** Gathering the coroutine of a single call is running the call, whatever
    the schedule. *)
Lemma gather_single schedule deps call retrievers self :
  retrievers !! tool_name call = Some self →
  asyncio.gather schedule [Retriever.Created deps call] retrievers =
    (match (Retriever.run self deps call).1 with
     | Return m => Return [m]
     | Raise e => Raise e
     end,
     <[tool_name call := (Retriever.run self deps call).2]> retrievers).
Proof.
  intros Hself. unfold asyncio.gather.
  change (seq 0 (length [Retriever.Created deps call]) ++
          seq 0 (length [Retriever.Created deps call]))
    with (repeat 0%nat 2).
  rewrite single_schedule by (cbn; lia).
  cbn [repeat asyncio.run_schedule lookup list_lookup insert list_insert].
  unfold asyncio.resume_task at 1. cbn [asyncio.task_key]. rewrite Hself.
  unfold Retriever.run. cbn [Retriever.resume].
  destruct (Retriever.validate_args self call) as [errors|args_dict].
  - rewrite on_error_eq. case_decide; cbn; done.
  - destruct (Retriever._call_args self deps args_dict) as [[a k]|e];
      [|done].
    cbn [lookup list_lookup insert list_insert].
    unfold asyncio.resume_task. cbn [asyncio.task_key].
    rewrite lookup_insert_eq. cbn [Retriever.resume].
    destruct (Retriever.after_function self call _) as [[m|e] self1];
      cbn; by rewrite insert_insert_eq.
Qed.

Lemma handle_single_call self schedule messages call deps t :
  no_result_call self [call] →
  _retrievers self !! tool_name call = Some t →
  Agent._handle_model_response self schedule messages (LLMToolCalls [call])
                               deps =
    let r := Retriever.run t deps call in
    let self' :=
      set_retrievers self (<[tool_name call := r.2]> (_retrievers self)) in
    match r.1 with
    | Return m =>
        (Return None, self',
         (messages ++ [FromLLM (LLMToolCalls [call])]) ++ [m])
    | Raise e => (Raise e, self', messages ++ [FromLLM (LLMToolCalls [call])])
    end.
Proof.
  intros Hno Ht.
  assert (Hrun : ∀ msgs,
    Agent.run_retrievers self schedule msgs [call] deps =
      let r := Retriever.run t deps call in
      let self' :=
        set_retrievers self (<[tool_name call := r.2]> (_retrievers self)) in
      match r.1 with
      | Return m => (Return None, self', msgs ++ [m])
      | Raise e => (Raise e, self', msgs)
      end).
  { intros msgs. unfold Agent.run_retrievers. cbn [Agent.make_coros].
    rewrite Ht. cbn [app]. rewrite (gather_single _ _ _ _ _ Ht).
    cbn zeta. by destruct (Retriever.run t deps call).1. }
  unfold Agent._handle_model_response, no_result_call in *.
  destruct (_result_tool self) as [rt|]; [rewrite Hno|]; apply Hrun.
Qed.

Lemma loop_add n : ∀ m self event_loop agent_model messages deps,
  Agent.loop (n + m) self event_loop agent_model messages deps =
  match Agent.loop n self event_loop agent_model messages deps with
  | Running self messages =>
      Agent.loop m self event_loop agent_model messages deps
  | ended => ended
  end.
Proof.
  induction n as [|n IH]; intros m self event_loop agent_model messages deps;
    [done|].
  cbn [Nat.add Agent.loop].
  destruct (Agent._handle_model_response _ _ _ _ _) as [[[[v|]|e] s] ms];
    [done|apply IH|done].
Qed.

Section FailingTool.

Variables (event_loop : list Message -> list nat)
          (agent_model : _models.AgentModel) (deps : AgentDeps)
          (call : ToolCall) (errors : list ErrorDetails).

(** The model asks for the same call at every turn. *)
Hypothesis always_call :
  ∀ messages, _models.request agent_model messages = LLMToolCalls [call].

(** As long as the budget of the tool lasts, each turn of the run adds one
    to its counter: [k] turns after the counter read [c], it reads
    [c + k]. *)
Lemma failing_turns k : ∀ self messages t,
  no_result_call self [call] →
  _retrievers self !! tool_name call = Some t →
  Retriever.validate_args t call = inl errors →
  _current_retry t + Z.of_nat k ≤ max_retries t →
  ∃ self' messages',
    Agent.loop k self event_loop agent_model messages deps =
      Running self' messages' ∧
    no_result_call self' [call] ∧
    _retrievers self' !! tool_name call =
      Some (set_current_retry t (_current_retry t + Z.of_nat k)).
Proof.
  induction k as [|k IH]; intros self messages t Hno Ht Hv Hk.
  - exists self, messages. split_and!; [done|done|].
    by rewrite Z.add_0_r, set_current_retry_same.
  - cbn [Agent.loop]. rewrite always_call.
    rewrite (handle_single_call _ _ _ _ _ _ Hno Ht). cbn zeta.
    rewrite (run_validation_failure _ _ _ _ Hv).
    cbn [fst snd]. rewrite decide_True by lia.
    set (t1 := set_current_retry t (_current_retry t + 1)).
    set (self1 := set_retrievers self _).
    destruct (IH self1
      ((messages ++ [FromLLM (LLMToolCalls [call])]) ++
       [ToolRetry (tool_name call) (FieldErrors errors) (tool_id call)]) t1)
      as (self' & messages' & Hloop & Hno' & Ht'); [done| |done| |].
    + subst self1. cbn [_retrievers set_retrievers]. apply lookup_insert_eq.
    + subst t1. cbn [_current_retry max_retries set_current_retry]. lia.
    + exists self', messages'. split_and!; [done|done|].
      rewrite Ht'. subst t1. cbn [_current_retry set_current_retry].
      do 2 f_equal. lia.
Qed.

(** With the budget used up, the next failing turn ends the run. *)
Lemma failing_turn_fatal fuel self messages t :
  no_result_call self [call] →
  _retrievers self !! tool_name call = Some t →
  Retriever.validate_args t call = inl errors →
  max_retries t < _current_retry t + 1 →
  ∃ self',
    Agent.loop (S fuel) self event_loop agent_model messages deps =
      Ended (Raise (ValidationError errors)) self'
            (messages ++ [FromLLM (LLMToolCalls [call])]).
Proof.
  intros Hno Ht Hv Hmax. cbn [Agent.loop]. rewrite always_call.
  rewrite (handle_single_call _ _ _ _ _ _ Hno Ht). cbn zeta.
  rewrite (run_validation_failure _ _ _ _ Hv).
  cbn [fst snd]. rewrite decide_False by lia. by eexists.
Qed.

End FailingTool.

Lemma before_loop_retrievers self user_prompt message_history model deps
    self0 agent_model messages deps0 :
  Agent.before_loop self user_prompt message_history model deps =
    Return (self0, agent_model, messages, deps0) →
  _retrievers self0 = Retriever.reset <$> _retrievers self ∧
  _result_tool self0 = _result_tool self.
Proof.
  unfold Agent.before_loop. intros H.
  repeat case_match; simplify_eq; done.
Qed.

(** C7.  [run] resets every registered tool once, before its loop: the
    first request is made with every counter at zero.  Within the loop no
    turn resets them: a turn leaves the counter of every tool it does not
    call, and a tool with [max_retries = N] that fails validation in turn
    after turn has its counter at [k] after [k ≤ N] turns of the run and
    ends the run at turn N+1. *)
Theorem tool_counters_reset_once_per_run (self : Agent)
    (user_prompt : string) (message_history : option (list Message))
    (model : option _models.Model) (deps : option AgentDeps)
    (self0 : Agent) (agent_model : _models.AgentModel)
    (messages : list Message) (deps0 : AgentDeps) :
  Agent.before_loop self user_prompt message_history model deps =
    Return (self0, agent_model, messages, deps0) →
  (∀ key,
     _retrievers self0 !! key = Retriever.reset <$> _retrievers self !! key) ∧
  (∀ key r, _retrievers self0 !! key = Some r → _current_retry r = 0) ∧
  (∀ (a : Agent) schedule conversation llm_message key,
     (∀ calls call,
        llm_message = LLMToolCalls calls → call ∈ calls →
        tool_name call ≠ key) →
     _retrievers
       (Agent._handle_model_response a schedule conversation llm_message
                                     deps0).1.2 !! key =
     _retrievers a !! key) ∧
  (∀ event_loop call t errors (N : nat),
     (∀ conversation,
        _models.request agent_model conversation = LLMToolCalls [call]) →
     no_result_call self [call] →
     _retrievers self !! tool_name call = Some t →
     Retriever.validate_args t call = inl errors →
     max_retries t = Z.of_nat N →
     (∀ k, (k ≤ N)%nat →
        ∃ self_k messages_k,
          Agent.loop k self0 event_loop agent_model messages deps0 =
            Running self_k messages_k ∧
          _current_retry <$> _retrievers self_k !! tool_name call =
            Some (Z.of_nat k)) ∧
     ∃ self_end messages_end,
       Agent.loop (S N) self0 event_loop agent_model messages deps0 =
         Ended (Raise (ValidationError errors)) self_end messages_end).
Proof.
  intros Hbefore.
  apply before_loop_retrievers in Hbefore as [Hreset Htool].
  split_and!.
  - intros key. by rewrite Hreset, lookup_fmap.
  - intros key r. rewrite Hreset, lookup_fmap.
    destruct (_retrievers self !! key); intros Hr; cbn in Hr;
      by simplify_eq.
  - intros a schedule conversation llm_message key Hkey.
    by apply handle_frame.
  - intros event_loop call t errors N Hcall Hno Ht Hv Hmax.
    assert (Hno0 : no_result_call self0 [call]).
    { unfold no_result_call in *. by rewrite Htool. }
    assert (Ht0 :
      _retrievers self0 !! tool_name call = Some (Retriever.reset t)).
    { by rewrite Hreset, lookup_fmap, Ht. }
    assert (Hturns : ∀ k, (k ≤ N)%nat →
      ∃ self_k messages_k,
        Agent.loop k self0 event_loop agent_model messages deps0 =
          Running self_k messages_k ∧
        no_result_call self_k [call] ∧
        _retrievers self_k !! tool_name call =
          Some (set_current_retry t (Z.of_nat k))).
    { intros k Hk.
      destruct (failing_turns event_loop agent_model deps0 call errors Hcall
        k self0 messages (Retriever.reset t)) as (s & ms & Hl & Hn & Hs);
        [done|done|done|cbn; lia|].
      exists s, ms. split_and!; [done|done|]. by rewrite Hs. }
    split.
    + intros k Hk. destruct (Hturns k Hk) as (s & ms & Hl & _ & Hs).
      exists s, ms. split; [done|]. by rewrite Hs.
    + destruct (Hturns N) as (s & ms & Hl & Hn & Hs); [lia|].
      destruct (failing_turn_fatal event_loop agent_model deps0 call errors
        Hcall 0 s ms (set_current_retry t (Z.of_nat N))) as [s' Hend];
        [done|done|done|cbn; lia|].
      exists s', (ms ++ [FromLLM (LLMToolCalls [call])]).
      replace (S N) with (N + 1)%nat by lia.
      by rewrite loop_add, Hl.
Qed.

Example weather_agent_used_counter :
  _retrievers weather_agent_used !! "get_weather" = Some (get_weather 1 1).
Proof. vm_compute. reflexivity. Qed.

Lemma tool_counters_reset_once_per_run_witness :
  let self0 :=
    set_retrievers weather_agent_used
      (Retriever.reset <$> _retrievers weather_agent_used) in
  (∀ key r, _retrievers self0 !! key = Some r → _current_retry r = 0) ∧
  (∀ k, (k ≤ 1)%nat →
     ∃ self_k messages_k,
       Agent.loop k self0 in_call_order (scripted always_123)
                  [UserPrompt "Weather?"] VNone =
         Running self_k messages_k ∧
       _current_retry <$> _retrievers self_k !! tool_name call_123 =
         Some (Z.of_nat k)) ∧
  ∃ self_end messages_end,
    Agent.loop 2 self0 in_call_order (scripted always_123)
               [UserPrompt "Weather?"] VNone =
      Ended (Raise (ValidationError [city_error])) self_end messages_end.
Proof.
  intros self0.
  destruct (tool_counters_reset_once_per_run weather_agent_used "Weather?"
    (Some []) (Some (scripted_model always_123)) None self0
    (scripted always_123) [UserPrompt "Weather?"] VNone eq_refl)
    as (_ & Hzero & _ & Hbudget).
  split; [exact Hzero|].
  apply (Hbudget in_call_order call_123 (get_weather 1 1) [city_error]
           1%nat).
  - reflexivity.
  - vm_compute. reflexivity.
  - vm_compute. reflexivity.
  - reflexivity.
  - reflexivity.
Defined.


(** * Further properties of the two files *)

(** ** Retriever.run and Retriever._call_args *)

Lemma on_error_same_tool self active content call :
  (Retriever._on_error self active content call).2 =
  set_current_retry self (_current_retry self + 1).
Proof. by rewrite on_error_eq. Qed.

(** X1.  Whatever a call does, [run] changes nothing of the retriever but
    its counter.  A returned message is the [ToolReturn] of the call, the
    counter then at 0, or its [ToolRetry], the counter one higher and
    within [max_retries].  When [run] raises, either the call had a
    recoverable failure that exhausted the budget (counter one higher and
    above [max_retries], the failure's exception raised) or it was no
    recoverable failure and the retriever is untouched. *)
Theorem run_outcomes (self : Retriever) (deps : AgentDeps)
    (message : ToolCall) :
  let r := Retriever.run self deps message in
  r.2 = set_current_retry self (_current_retry r.2) ∧
  match r.1 with
  | Return m =>
      (∃ content,
         m = ToolReturn (tool_name message) content (tool_id message) ∧
         failure self deps message = None ∧
         _current_retry r.2 = 0) ∨
      (∃ exn content,
         m = ToolRetry (tool_name message) content (tool_id message) ∧
         failure self deps message = Some (exn, content) ∧
         _current_retry r.2 = _current_retry self + 1 ∧
         _current_retry r.2 ≤ max_retries self)
  | Raise e =>
      (∃ content,
         failure self deps message = Some (e, content) ∧
         _current_retry r.2 = _current_retry self + 1 ∧
         max_retries self < _current_retry r.2) ∨
      (failure self deps message = None ∧ r.2 = self)
  end.
Proof.
  cbn zeta. unfold Retriever.run, failure.
  destruct (Retriever.validate_args self message) as [errors|args_dict].
  - rewrite on_error_eq. cbn [fst snd]. split; [done|].
    case_decide; [right|left]; repeat eexists; cbn; lia.
  - destruct (Retriever._call_args self deps args_dict) as [[a k]|e].
    + unfold Retriever.after_function.
      destruct (Retriever.await_function self a k) as [content|m|e].
      * cbn. split; [done|]. left. by eexists.
      * rewrite on_error_eq. cbn [fst snd]. split; [done|].
        case_decide; [right|left]; repeat eexists; cbn; lia.
      * cbn. split; [by rewrite set_current_retry_same|by right].
    + cbn. split; [by rewrite set_current_retry_same|by right].
Qed.

Lemma pop_positional_Return fields : ∀ args d args' d',
  Retriever.pop_positional fields args d = Return (args', d') →
  NoDup fields ∧
  ∃ vs,
    args' = args ++ (ArgValue <$> vs) ∧
    Forall2 (λ f v, d !! f = Some v) fields vs ∧
    ∀ k, d' !! k = if decide (k ∈ fields) then None else d !! k.
Proof.
  induction fields as [|f fields IH]; intros args d args' d' Hpop;
    cbn [Retriever.pop_positional] in Hpop.
  - simplify_eq. split; [constructor|]. exists [].
    rewrite app_nil_r. split_and!; [done|constructor|].
    intros k. by rewrite decide_False by apply not_elem_of_nil.
  - unfold Retriever.pop in Hpop.
    destruct (d !! f) as [v|] eqn:Hf; [|simplify_eq].
    destruct (IH _ _ _ _ Hpop) as (Hnodup & vs & -> & Hvs & Hd').
    assert (Hnotin : f ∉ fields).
    { intros Hin. apply list_elem_of_lookup in Hin as [i Hi].
      destruct (Forall2_lookup_l _ _ _ _ _ Hvs Hi) as (w & _ & Hw).
      by rewrite lookup_delete_eq in Hw. }
    split; [by constructor|]. exists (v :: vs). split_and!.
    + by rewrite <- (assoc_L (++)).
    + constructor; [done|].
      eapply Forall2_impl; [exact Hvs|]. intros f' w Hw. cbn in Hw.
      apply lookup_delete_Some in Hw as [_ Hw]. exact Hw.
    + intros k. rewrite Hd'. destruct (decide (k = f)) as [->|Hne].
      * rewrite (decide_True (P := f ∈ f :: fields)) by (by left).
        case_decide; [done|apply lookup_delete_eq].
      * rewrite lookup_delete_ne by done.
        repeat case_decide; try done; exfalso;
          rewrite elem_of_cons in *; tauto.
Qed.

(** X2.  When [_call_args] binds a validated mapping (no
    [single_arg_name]), the positional arguments are the call context, for
    a context function only and carrying [deps] and the retriever's current
    retry count, then the values of [positional_fields] in their declared
    order, then the items of the value of the variadic field if there is
    one (the items of a list, the characters of a str, the keys of a
    dict); the keyword arguments are the mapping without those fields.
    The positional fields are then pairwise distinct, and the variadic
    field is none of them. *)
Theorem call_args_binding (self : Retriever) (deps : AgentDeps)
    (d : gmap string PyVal) (args : list CallArg)
    (kwargs : gmap string PyVal) :
  truthy (single_arg_name self) = None →
  Retriever._call_args self deps (VDict d) = Return (args, kwargs) →
  NoDup (positional_fields self) ∧
  ∃ vs extra,
    args = context_args self deps ++ (ArgValue <$> vs) ++
           (ArgValue <$> extra) ∧
    Forall2 (λ f v, d !! f = Some v) (positional_fields self) vs ∧
    match truthy (var_positional_field self) with
    | None =>
        extra = [] ∧
        ∀ k, kwargs !! k =
               if decide (k ∈ positional_fields self) then None else d !! k
    | Some var =>
        (var ∉ positional_fields self) ∧
        (∃ v, d !! var = Some v ∧ spreads v extra) ∧
        ∀ k, kwargs !! k =
               if decide (k ∈ var :: positional_fields self) then None
               else d !! k
    end.
Proof.
  intros Hsingle Hargs. unfold Retriever._call_args in Hargs.
  rewrite Hsingle in Hargs. fold (context_args self deps) in Hargs.
  destruct (Retriever.pop_positional _ _ d) as [[args1 d1]|e] eqn:Hpop;
    [|simplify_eq].
  apply pop_positional_Return in Hpop as (Hnodup & vs & -> & Hvs & Hd1).
  split; [done|]. exists vs.
  destruct (truthy (var_positional_field self)) as [var|].
  - unfold Retriever.pop in Hargs.
    destruct (d1 !! var) as [v|] eqn:Hvar; [|simplify_eq].
    destruct (Retriever.iterate v) as [extra|] eqn:Hiter; simplify_eq.
    rewrite Hd1 in Hvar. case_decide; [done|].
    exists extra. split_and!; [by rewrite (assoc_L (++))|done|done| |].
    + exists v. split; [done|].
      destruct v; cbn in Hiter; simplify_eq; cbn; reflexivity.
    + intros k. destruct (decide (k = var)) as [->|Hne].
      * rewrite lookup_delete_eq. by rewrite decide_True by (by left).
      * rewrite lookup_delete_ne, Hd1 by done.
        repeat case_decide; try done; exfalso;
          rewrite elem_of_cons in *; tauto.
  - simplify_eq. exists []. rewrite app_nil_r. by split_and!.
Qed.

Lemma call_args_binding_witness :
  NoDup (positional_fields forecast) ∧
  ∃ vs extra,
    [ArgContext (mkCallContext (VStr "deps") 1); ArgValue (VStr "Paris");
     ArgValue (VInt 1); ArgValue (VInt 2)] =
      context_args forecast (VStr "deps") ++ (ArgValue <$> vs) ++
      (ArgValue <$> extra) ∧
    Forall2 (λ f v, forecast_args !! f = Some v)
            (positional_fields forecast) vs ∧
    match truthy (var_positional_field forecast) with
    | None =>
        extra = [] ∧
        ∀ k, ({[ "unit" := VStr "C" ]} : gmap string PyVal) !! k =
               if decide (k ∈ positional_fields forecast) then None
               else forecast_args !! k
    | Some var =>
        (var ∉ positional_fields forecast) ∧
        (∃ v, forecast_args !! var = Some v ∧ spreads v extra) ∧
        ∀ k, ({[ "unit" := VStr "C" ]} : gmap string PyVal) !! k =
               if decide (k ∈ var :: positional_fields forecast) then None
               else forecast_args !! k
    end.
Proof.
  apply (call_args_binding forecast (VStr "deps") forecast_args).
  - reflexivity.
  - vm_compute. reflexivity.
Defined.

Example variadic_str_is_spread :
  Retriever._call_args forecast (VStr "deps")
    (VDict {[ "city" := VStr "Paris"; "days" := VStr "ab" ]}) =
    Return ([ArgContext (mkCallContext (VStr "deps") 1);
             ArgValue (VStr "Paris"); ArgValue (VStr "a");
             ArgValue (VStr "b")], ∅).
Proof. vm_compute. reflexivity. Qed.

Lemma pop_positional_missing fields : ∀ args d,
  (∃ f, f ∈ fields ∧ d !! f = None) →
  ∃ f, f ∈ fields ∧
    Retriever.pop_positional fields args d = Raise (KeyError f).
Proof.
  induction fields as [|f fields IH]; intros args d (f0 & Hin & Hnone).
  - by apply elem_of_nil in Hin.
  - cbn [Retriever.pop_positional]. unfold Retriever.pop.
    destruct (d !! f) as [v|] eqn:Hf.
    + apply elem_of_cons in Hin as [->|Hin]; [congruence|].
      destruct (IH (args ++ [ArgValue v]) (delete f d)) as (f1 & Hin1 & H1).
      { exists f0. split; [done|]. rewrite lookup_delete_None. by right. }
      exists f1. split; [by right|done].
    + exists f. split; [by left|done].
Qed.

(** X3.  When the validator lets through a mapping that lacks one of the
    positional fields, [run] raises a [KeyError] for a positional field:
    the model gets no [ToolRetry], and the retriever, its retry counter
    included, is left as it was. *)
Theorem missing_positional_field_raises (self : Retriever)
    (deps : AgentDeps) (message : ToolCall) (d : gmap string PyVal) :
  truthy (single_arg_name self) = None →
  Retriever.validate_args self message = inr (VDict d) →
  (∃ f, f ∈ positional_fields self ∧ d !! f = None) →
  ∃ f, f ∈ positional_fields self ∧
    Retriever.run self deps message = (Raise (KeyError f), self).
Proof.
  intros Hsingle Hv Hmissing.
  destruct (pop_positional_missing _ (context_args self deps) d Hmissing)
    as (f & Hin & Hpop).
  exists f. split; [done|].
  unfold Retriever.run, Retriever._call_args. rewrite Hv, Hsingle.
  fold (context_args self deps). by rewrite Hpop.
Qed.

Lemma missing_positional_field_raises_witness :
  ∃ f, f ∈ positional_fields forecast ∧
    Retriever.run forecast VNone
                  (forecast_call {[ "days" := VList [] ]}) =
      (Raise (KeyError f), forecast).
Proof.
  apply (missing_positional_field_raises forecast VNone
           (forecast_call {[ "days" := VList [] ]})
           {[ "days" := VList [] ]}).
  - reflexivity.
  - reflexivity.
  - exists "city". split; [by left|]. vm_compute. reflexivity.
Defined.

(** ** Registration *)

(** X4.  [_register_retriever] never replaces or removes a registered
    tool and keeps the registry keyed by names that differ from the result
    schema's.  When it returns, the name was free and the new tool is
    stored under its name with its counter at 0 and [max_retries] the
    [retries] given, or the agent's default; when it raises, the agent is
    unchanged. *)
Theorem registration_keeps_tools (self : Agent) (retriever : Retriever)
    (retries : option Z) :
  let r := Agent._register_retriever self retriever retries in
  (∀ key r0, _retrievers self !! key = Some r0 →
     _retrievers r.2 !! key = Some r0) ∧
  (registry_ok self → registry_ok r.2) ∧
  match r.1 with
  | Return new =>
      _retrievers self !! name retriever = None ∧
      _retrievers r.2 = <[name retriever := new]> (_retrievers self) ∧
      new = set_current_retry new 0 ∧
      name new = name retriever ∧
      max_retries new =
        match retries with Some n => n | None => _default_retries self end
  | Raise e => r.2 = self
  end.
Proof.
  cbn zeta. unfold Agent._register_retriever.
  cbn [name description function is_async single_arg_name positional_fields
       var_positional_field validator max_retries _current_retry].
  destruct (match _result_tool self with
            | Some t => bool_decide (_result.name t = name retriever)
            | None => false
            end) eqn:Hconflict; [done|].
  destruct (_retrievers self !! name retriever) as [old|] eqn:Hold; [done|].
  cbn [fst snd _retrievers set_retrievers]. split_and!; try done.
  - intros key r0 Hkey. apply lookup_insert_Some. right.
    split; [congruence|done].
  - intros Hok key r Hr. cbn [_retrievers set_retrievers] in Hr.
    apply lookup_insert_Some in Hr as [[<- <-]|[_ Hr]]; [|by apply Hok].
    cbn [name _result_tool set_retrievers].
    split; [done|]. intros t Ht. rewrite Ht in Hconflict.
    by apply bool_decide_eq_false in Hconflict.
Qed.

Lemma registration_keeps_tools_witness :
  registry_ok weather_agent.
Proof.
  unfold weather_agent.
  apply (registration_keeps_tools
           (Agent.__init__ None (Some final_result) ["Be helpful"] VNone 1
                           None) (get_weather 0 0) None).
  intros key r Hkey. cbn in Hkey. by apply lookup_empty_Some in Hkey.
Defined.

(** ** Result validators and system prompts *)

Lemma validate_with_app validators1 validators2 :
  ∀ result deps retry tool_call,
  Agent.validate_with (validators1 ++ validators2) result deps retry
                      tool_call =
  match Agent.validate_with validators1 result deps retry tool_call with
  | Return result =>
      Agent.validate_with validators2 result deps retry tool_call
  | Raise e => Raise e
  end.
Proof.
  induction validators1 as [|v validators1 IH];
    intros result deps retry tool_call; [done|].
  cbn [app Agent.validate_with].
  destruct (_result.validator_validate v result deps retry tool_call);
    [apply IH|done].
Qed.

(** X5.  A validator registered with [result_validator] runs after all
    the validators registered before it, on the result they produced and
    with the agent's current result-retry count; it does not run when one
    of them raised. *)
Theorem result_validator_runs_last (self : Agent)
    (validator : _result.ResultValidator) (result : ResultData)
    (deps : AgentDeps) (tool_call : ToolCall) :
  Agent._validate_result (Agent.result_validator self validator) result deps
                         tool_call =
  match Agent._validate_result self result deps tool_call with
  | Return result =>
      _result.validator_validate validator result deps
                                 (_current_result_retry self) tool_call
  | Raise e => Raise e
  end.
Proof.
  unfold Agent._validate_result, Agent.result_validator.
  cbn [_result_validators _current_result_retry].
  rewrite validate_with_app.
  destruct (Agent.validate_with _ result deps _ tool_call) as [r|e];
    [|done].
  cbn [Agent.validate_with]. by destruct (_result.validator_validate _ _ _ _ _).
Qed.

(** X6.  The conversation that [run] seeds without a message history is
    the static system prompts in their order, then one [SystemPrompt] per
    function registered with [system_prompt], in the order of registration
    and computed from the dependencies of the run, then the user prompt.
    With a message history, the conversation is the history and the user
    prompt, whatever prompts are registered. *)
Theorem seeded_conversation (self : Agent)
    (runners : list _system_prompt.SystemPromptRunner)
    (user_prompt : string) (message_history : option (list Message))
    (model : option _models.Model) (deps : option AgentDeps)
    (self0 : Agent) (agent_model : _models.AgentModel)
    (messages : list Message) (deps0 : AgentDeps) :
  Agent.before_loop (foldl Agent.system_prompt self runners) user_prompt
                    message_history model deps =
    Return (self0, agent_model, messages, deps0) →
  deps0 = match deps with Some d => d | None => _default_deps self end ∧
  messages =
    match message_history with
    | Some history => history ++ [UserPrompt user_prompt]
    | None =>
        Agent._init_messages self deps0 ++
        ((λ runner, SystemPrompt (_system_prompt.run runner deps0))
           <$> runners) ++
        [UserPrompt user_prompt]
    end.
Proof.
  assert (Hfold : ∀ rs a,
    _default_deps (foldl Agent.system_prompt a rs) = _default_deps a ∧
    _model (foldl Agent.system_prompt a rs) = _model a ∧
    ∀ d, Agent._init_messages (foldl Agent.system_prompt a rs) d =
         Agent._init_messages a d ++
         ((λ runner, SystemPrompt (_system_prompt.run runner d)) <$> rs)).
  { induction rs as [|r rs IH]; intros a; cbn [foldl].
    - split_and!; [done|done|]. intros d. by rewrite app_nil_r.
    - destruct (IH (Agent.system_prompt a r)) as (-> & -> & Hinit).
      split_and!; [done|done|]. intros d. rewrite Hinit.
      unfold Agent._init_messages. cbn [Agent.system_prompt
        _system_prompts _system_prompt_functions].
      by rewrite fmap_app, <- !(assoc_L (++)). }
  destruct (Hfold runners self) as (Hdeps & Hmodel & Hinit).
  unfold Agent.before_loop. rewrite Hdeps, Hmodel. intros H.
  destruct (match model with Some m => Some m | None => _model self end);
    [|simplify_eq].
  simplify_eq. split; [done|].
  destruct message_history; [done|]. by rewrite Hinit, <- (assoc_L (++)).
Qed.

(** ** Tool-call turns *)

(** X7.  When several calls of a turn name the result schema, the one
    that is validated is the first in the order of the calls: the call
    found is preceded only by calls with other names; and none is found
    only when no call has the name. *)
Theorem first_result_call_wins (name : string) (calls : list ToolCall) :
  match Agent.first_call_named name calls with
  | Some call =>
      ∃ before after,
        calls = before ++ call :: after ∧
        tool_name call = name ∧
        ∀ c, c ∈ before → tool_name c ≠ name
  | None => ∀ c, c ∈ calls → tool_name c ≠ name
  end.
Proof.
  unfold Agent.first_call_named.
  induction calls as [|c calls IH]; cbn [find].
  - intros c Hc. by apply elem_of_nil in Hc.
  - case_bool_decide as Hc.
    + exists [], calls. split_and!; [done|done|].
      intros c' Hc'. by apply elem_of_nil in Hc'.
    + destruct (find _ calls) as [call|].
      * destruct IH as (before & after & -> & Hname & Hbefore).
        exists (c :: before), after. split_and!; [done|done|].
        intros c' Hc'. apply elem_of_cons in Hc' as [->|Hc']; auto.
      * intros c' Hc'. apply elem_of_cons in Hc' as [->|Hc']; auto.
Qed.

Lemma make_coros_first_unknown retrievers deps before call after : ∀ coros,
  (∀ c, c ∈ before → is_Some (retrievers !! tool_name c)) →
  retrievers !! tool_name call = None →
  Agent.make_coros retrievers deps (before ++ call :: after) coros =
    Raise (ValueError_unknown_function (tool_name call)).
Proof.
  induction before as [|c before IH]; intros coros Hknown Hnone;
    cbn [app Agent.make_coros].
  - by rewrite Hnone.
  - destruct (Hknown c) as [r ->]; [by left|].
    apply IH; [|done]. intros c' Hc'. apply Hknown. by right.
Qed.

(** X8.  The [ValueError] of a dispatched turn names the first call, in
    the order of the calls, whose tool is not registered, also when calls
    before it are valid and calls after it are unknown too; no call of the
    turn has run. *)
Theorem first_unknown_tool_is_reported (self : Agent) (schedule : list nat)
    (messages : list Message) (deps : AgentDeps)
    (before : list ToolCall) (call : ToolCall) (after : list ToolCall) :
  no_result_call self (before ++ call :: after) →
  (∀ c, c ∈ before → is_Some (_retrievers self !! tool_name c)) →
  _retrievers self !! tool_name call = None →
  Agent._handle_model_response self schedule messages
    (LLMToolCalls (before ++ call :: after)) deps =
    (Raise (ValueError_unknown_function (tool_name call)), self,
     messages ++ [FromLLM (LLMToolCalls (before ++ call :: after))]).
Proof.
  intros Hno Hknown Hnone.
  unfold Agent._handle_model_response, no_result_call in *.
  destruct (_result_tool self) as [t|]; [rewrite Hno|];
    unfold Agent.run_retrievers;
    by rewrite (make_coros_first_unknown _ _ _ _ _ [] Hknown Hnone).
Qed.

Lemma first_unknown_tool_is_reported_witness :
  Agent._handle_model_response weather_agent [1; 0]%nat [] 
    (LLMToolCalls ([call_paris] ++
                   city_call "get_time" (VStr "Paris") "t" ::
                   [city_call "get_news" (VStr "Paris") "n"])) VNone =
    (Raise (ValueError_unknown_function
              (tool_name (city_call "get_time" (VStr "Paris") "t"))),
     weather_agent,
     [] ++ [FromLLM (LLMToolCalls
               ([call_paris] ++
                city_call "get_time" (VStr "Paris") "t" ::
                [city_call "get_news" (VStr "Paris") "n"]))]).
Proof.
  apply (first_unknown_tool_is_reported weather_agent [1; 0]%nat [] VNone
           [call_paris] (city_call "get_time" (VStr "Paris") "t")
           [city_call "get_news" (VStr "Paris") "n"]).
  - vm_compute. reflexivity.
  - intros c Hc. apply list_elem_of_singleton in Hc as ->.
    vm_compute. by eexists.
  - vm_compute. reflexivity.
Defined.

Lemma run_schedule_no_tasks schedule retrievers :
  asyncio.run_schedule schedule [] retrievers = (Return [], retrievers).
Proof. induction schedule as [|i schedule IH]; [done|]. exact IH. Qed.

Lemma handle_no_calls self schedule messages deps :
  Agent._handle_model_response self schedule messages (LLMToolCalls []) deps =
    (Return None, self, messages ++ [FromLLM (LLMToolCalls [])]).
Proof.
  unfold Agent._handle_model_response.
  assert (Hrun : ∀ msgs,
    Agent.run_retrievers self schedule msgs [] deps =
      (Return None, self, msgs)).
  { intros msgs. unfold Agent.run_retrievers, asyncio.gather.
    cbn [Agent.make_coros length seq app]. rewrite app_nil_r.
    rewrite run_schedule_no_tasks. cbn. rewrite app_nil_r.
    by destruct self. }
  destruct (_result_tool self); apply Hrun.
Qed.

(** X9.  The loop of [run] has no cap on its turns.  A turn with an empty
    list of tool calls appends the model's message only, changes nothing
    of the agent and goes on; against a model that answers so at every
    turn, the run is still running after any number of turns, the
    conversation one message longer per turn. *)
Theorem empty_tool_calls_never_end (self : Agent)
    (event_loop : list Message -> list nat)
    (agent_model : _models.AgentModel) (messages : list Message)
    (deps : AgentDeps) (fuel : nat) :
  (∀ conversation,
     _models.request agent_model conversation = LLMToolCalls []) →
  Agent.loop fuel self event_loop agent_model messages deps =
    Running self (messages ++ replicate fuel (FromLLM (LLMToolCalls []))).
Proof.
  intros Hreq. revert messages.
  induction fuel as [|fuel IH]; intros messages; cbn [Agent.loop replicate].
  - by rewrite app_nil_r.
  - rewrite Hreq, handle_no_calls, IH. by rewrite <- (assoc_L (++)).
Qed.

Lemma empty_tool_calls_never_end_witness :
  Agent.loop 3 weather_agent in_call_order
             (scripted (fun _ => LLMToolCalls [])) [UserPrompt "?"] VNone =
    Running weather_agent
      ([UserPrompt "?"] ++ replicate 3 (FromLLM (LLMToolCalls []))).
Proof.
  apply (empty_tool_calls_never_end weather_agent in_call_order
           (scripted (fun _ => LLMToolCalls [])) [UserPrompt "?"] VNone 3).
  reflexivity.
Defined.


(** ** What a run changes of an agent *)

Lemma same_tool_refl r : same_tool r r.
Proof. unfold same_tool. by rewrite set_current_retry_same. Qed.

Lemma same_tool_trans r1 r2 r3 :
  same_tool r1 r2 → same_tool r2 r3 → same_tool r1 r3.
Proof. unfold same_tool. intros -> ->. reflexivity. Qed.

Lemma resume_same_tool self c o self' :
  Retriever.resume self c = (o, self') → same_tool self self'.
Proof.
  destruct c as [deps message|message awaited|m]; cbn [Retriever.resume];
    intros H.
  - destruct (Retriever.validate_args self message).
    + rewrite on_error_eq in H. case_decide; by simplify_eq.
    + destruct (Retriever._call_args self deps _) as [[a k]|e]; simplify_eq;
        apply same_tool_refl.
  - unfold Retriever.after_function in H.
    destruct awaited; [| |]; try rewrite on_error_eq in H;
      repeat case_decide; simplify_eq; try done; apply same_tool_refl.
  - simplify_eq. apply same_tool_refl.
Qed.

Lemma resume_task_lookup retrievers c o retrievers' :
  asyncio.resume_task retrievers c = (o, retrievers') →
  retrievers' = retrievers ∨
  ∃ key self self' , 
    retrievers !! key = Some self ∧
    Retriever.resume self c = (o, self') ∧
    retrievers' = <[key := self']> retrievers.
Proof.
  unfold asyncio.resume_task. intros H.
  destruct (asyncio.task_key c) as [key|]; [|left; by simplify_eq].
  destruct (retrievers !! key) as [self|] eqn:Hkey; [|left; by simplify_eq].
  destruct (Retriever.resume self c) as [[c'|e] self'] eqn:Hres; simplify_eq;
    right; by eexists _, _, _.
Qed.

(** A relation that every resumption respects holds between the
    retrievers before and after a schedule. *)
Lemma run_schedule_related (R : Retriever → Retriever → Prop) :
  (∀ r, R r r) →
  (∀ r1 r2 r3, R r1 r2 → R r2 r3 → R r1 r3) →
  (∀ self c o self', Retriever.resume self c = (o, self') → R self self') →
  ∀ schedule tasks retrievers o retrievers',
    asyncio.run_schedule schedule tasks retrievers = (o, retrievers') →
    ∀ key, option_Forall2 R (retrievers !! key) (retrievers' !! key).
Proof.
  intros Hrefl Htrans Hres.
  assert (Hid : ∀ (m : gmap string Retriever) key,
    option_Forall2 R (m !! key) (m !! key)).
  { intros m key. destruct (m !! key); constructor. apply Hrefl. }
  assert (Hstep : ∀ retrievers c o retrievers',
    asyncio.resume_task retrievers c = (o, retrievers') →
    ∀ key, option_Forall2 R (retrievers !! key) (retrievers' !! key)).
  { intros retrievers c o retrievers' Hr key.
    apply resume_task_lookup in Hr
      as [->|(k & self & self' & Hk & Hr & ->)]; [apply Hid|].
    destruct (decide (k = key)) as [->|Hne].
    - rewrite Hk, lookup_insert_eq. constructor. by eapply Hres.
    - rewrite lookup_insert_ne by done. apply Hid. }
  induction schedule as [|i schedule IH];
    intros tasks retrievers o retrievers' Hrun key;
    cbn [asyncio.run_schedule] in Hrun; [simplify_eq; apply Hid|].
  destruct (tasks !! i) as [c|]; [|by eapply IH].
  destruct (asyncio.resume_task retrievers c) as [[c'|e] retrievers1]
    eqn:Hr.
  - pose proof (Hstep _ _ _ _ Hr key) as H1.
    pose proof (IH _ _ _ _ Hrun key) as H2.
    destruct H1; inversion H2; simplify_eq; constructor. by eapply Htrans.
  - simplify_eq. by eapply Hstep.
Qed.

Lemma gather_same_tools schedule coros retrievers o retrievers' :
  asyncio.gather schedule coros retrievers = (o, retrievers') →
  ∀ key, option_Forall2 same_tool (retrievers !! key) (retrievers' !! key).
Proof.
  unfold asyncio.gather. intros H.
  destruct (asyncio.run_schedule _ coros retrievers) as [[tasks|e] rs]
    eqn:Hrun; simplify_eq;
    eapply (run_schedule_related same_tool); eauto using same_tool_refl,
      same_tool_trans, resume_same_tool.
Qed.

Lemma same_agent_refl a : same_agent a a.
Proof.
  split; [by destruct a|].
  intros key. destruct (_retrievers a !! key); constructor.
  apply same_tool_refl.
Qed.

Lemma same_agent_trans a1 a2 a3 :
  same_agent a1 a2 → same_agent a2 a3 → same_agent a1 a3.
Proof.
  intros [H12 T12] [H23 T23]. split.
  - rewrite H23. rewrite H12 at 1. reflexivity.
  - intros key. specialize (T12 key). specialize (T23 key).
    destruct T12; inversion T23; simplify_eq; constructor.
    by eapply same_tool_trans.
Qed.

Lemma same_agent_retrievers a retrievers :
  (∀ key, option_Forall2 same_tool (_retrievers a !! key)
                                   (retrievers !! key)) →
  same_agent a (set_retrievers a retrievers).
Proof. intros H. split; [reflexivity|exact H]. Qed.

Lemma same_agent_result_retry a n :
  same_agent a (set_current_result_retry a n).
Proof.
  split; [reflexivity|]. intros key. cbn.
  destruct (_retrievers a !! key); constructor. apply same_tool_refl.
Qed.

Lemma handle_same_agent self schedule messages llm_message deps :
  same_agent self
    (Agent._handle_model_response self schedule messages llm_message
                                  deps).1.2.
Proof.
  assert (Hrun : ∀ msgs calls,
    same_agent self
      (Agent.run_retrievers self schedule msgs calls deps).1.2).
  { intros msgs calls. unfold Agent.run_retrievers.
    destruct (Agent.make_coros _ deps calls []) as [coros|e];
      [|apply same_agent_refl].
    destruct (asyncio.gather schedule coros (_retrievers self))
      as [[results|e] retrievers'] eqn:Hg; cbn [fst snd];
      apply same_agent_retrievers; by eapply gather_same_tools. }
  unfold Agent._handle_model_response.
  destruct llm_message as [content|calls];
    [case_match; apply same_agent_refl|].
  destruct (_result_tool self) as [t|]; [|apply Hrun].
  destruct (Agent.first_call_named _ calls) as [call|]; [|apply Hrun].
  destruct (Agent.validate_result_call self t deps call) as [result|e];
    [apply same_agent_refl|].
  destruct e; try apply same_agent_refl.
  rewrite incr_result_retry_eq.
  case_decide; apply same_agent_result_retry.
Qed.

Lemma loop_same_agent fuel : ∀ self event_loop agent_model messages deps,
  same_agent self
    (agent_of (Agent.loop fuel self event_loop agent_model messages deps)).
Proof.
  induction fuel as [|fuel IH];
    intros self event_loop agent_model messages deps; cbn [Agent.loop];
    [apply same_agent_refl|].
  pose proof (handle_same_agent self (event_loop messages) messages
    (_models.request agent_model messages) deps) as H.
  destruct (Agent._handle_model_response _ _ _ _ _) as [[o self'] messages'].
  cbn [fst snd] in H. destruct o as [[value|]|e]; cbn [agent_of]; try done.
  eapply same_agent_trans; [exact H|apply IH].
Qed.

(** X10.  A run changes nothing of the agent but retry counters: the
    agent after it, however it ends, holds the same tools under the same
    names, each as registered but for its counter, and all its other
    attributes but [_current_result_retry] are as before; so a registry
    keyed by names other than the result schema's stays one. *)
Theorem run_changes_only_counters (self : Agent)
    (event_loop : list Message -> list nat) (fuel : nat)
    (user_prompt : string) (message_history : option (list Message))
    (model : option _models.Model) (deps : option AgentDeps) :
  let self' :=
    agent_of (Agent.run self event_loop fuel user_prompt message_history
                        model deps) in
  same_agent self self' ∧ (registry_ok self → registry_ok self').
Proof.
  cbn zeta.
  assert (Hsame : same_agent self
    (agent_of (Agent.run self event_loop fuel user_prompt message_history
                         model deps))).
  { unfold Agent.run.
    destruct (Agent.before_loop self user_prompt message_history model deps)
      as [[[[self0 agent_model] messages] deps0]|e] eqn:Hbefore;
      [|apply same_agent_refl].
    apply before_loop_retrievers in Hbefore as Hreset.
    eapply same_agent_trans; [|apply loop_same_agent].
    assert (self0 =
      set_retrievers self (Retriever.reset <$> _retrievers self)) as ->.
    { unfold Agent.before_loop in Hbefore.
      repeat case_match; by simplify_eq. }
    apply same_agent_retrievers. intros key. rewrite lookup_fmap.
    destruct (_retrievers self !! key); by constructor. }
  split; [done|]. destruct Hsame as [Heq Htools].
  intros Hok key r' Hr'. specialize (Htools key). rewrite Hr' in Htools.
  inversion Htools as [r ? Hsame Hr|]; simplify_eq.
  destruct (Hok key r) as [Hname Hresult]; [done|].
  rewrite Hsame, Heq. cbn [name set_current_retry _result_tool
    set_current_result_retry set_retrievers]. done.
Qed.

Lemma resume_within_budget self c c' self' :
  within_budget self →
  Retriever.resume self c = (Return c', self') →
  within_budget self'.
Proof.
  unfold within_budget.
  destruct c as [deps message|message awaited|m]; cbn [Retriever.resume];
    intros Hb H.
  - destruct (Retriever.validate_args self message).
    + rewrite on_error_eq in H. case_decide; simplify_eq. cbn. lia.
    + destruct (Retriever._call_args self deps _) as [[a k]|e]; by simplify_eq.
  - unfold Retriever.after_function in H.
    destruct awaited; [| |]; try rewrite on_error_eq in H;
      repeat case_decide; simplify_eq; cbn; lia.
  - by simplify_eq.
Qed.

Lemma run_schedule_within_budget schedule :
  ∀ tasks retrievers tasks' retrievers',
  (∀ key r, retrievers !! key = Some r → within_budget r) →
  asyncio.run_schedule schedule tasks retrievers =
    (Return tasks', retrievers') →
  ∀ key r, retrievers' !! key = Some r → within_budget r.
Proof.
  induction schedule as [|i schedule IH];
    intros tasks retrievers tasks' retrievers' Hb Hrun;
    cbn [asyncio.run_schedule] in Hrun; [by simplify_eq|].
  destruct (tasks !! i) as [c|]; [|by eapply IH].
  destruct (asyncio.resume_task retrievers c) as [[c'|e] retrievers1]
    eqn:Hr; [|simplify_eq].
  eapply IH; [|exact Hrun].
  apply resume_task_lookup in Hr
    as [->|(k & self & self' & Hk & Hr & ->)]; [done|].
  intros key r Hkey.
  apply lookup_insert_Some in Hkey as [[<- <-]|[_ Hkey]]; [|by eapply Hb].
  eapply resume_within_budget; [by eapply Hb|done].
Qed.

Lemma handle_within_budget self schedule messages llm_message deps o self'
    messages' :
  (∀ key r, _retrievers self !! key = Some r → within_budget r) →
  Agent._handle_model_response self schedule messages llm_message deps =
    (Return o, self', messages') →
  ∀ key r, _retrievers self' !! key = Some r → within_budget r.
Proof.
  intros Hb.
  assert (Hrun : ∀ msgs calls,
    Agent.run_retrievers self schedule msgs calls deps =
      (Return o, self', messages') →
    ∀ key r, _retrievers self' !! key = Some r → within_budget r).
  { intros msgs calls. unfold Agent.run_retrievers, asyncio.gather.
    destruct (Agent.make_coros _ deps calls []) as [coros|e];
      [|intros; simplify_eq].
    destruct (asyncio.run_schedule _ coros (_retrievers self))
      as [[tasks|e] retrievers'] eqn:Hs; intros H; simplify_eq.
    cbn [_retrievers set_retrievers].
    by eapply run_schedule_within_budget. }
  unfold Agent._handle_model_response.
  destruct llm_message as [content|calls];
    [case_match; intros Heq; simplify_eq; exact Hb|].
  destruct (_result_tool self) as [t|]; [|apply Hrun].
  destruct (Agent.first_call_named _ calls) as [call|]; [|apply Hrun].
  destruct (Agent.validate_result_call self t deps call) as [result|e];
    [intros Heq; simplify_eq; exact Hb|].
  destruct e; try (intros Heq; simplify_eq; exact Hb).
  rewrite incr_result_retry_eq.
  case_decide; intros Heq; simplify_eq; exact Hb.
Qed.

Lemma loop_within_budget fuel : ∀ self event_loop agent_model messages deps,
  (∀ key r, _retrievers self !! key = Some r → within_budget r) →
  match Agent.loop fuel self event_loop agent_model messages deps with
  | Ended (Raise _) _ _ => True
  | Running self' _ | Ended (Return _) self' _ =>
      ∀ key r, _retrievers self' !! key = Some r → within_budget r
  end.
Proof.
  induction fuel as [|fuel IH];
    intros self event_loop agent_model messages deps Hb; cbn [Agent.loop];
    [done|].
  destruct (Agent._handle_model_response _ _ _ _ _)
    as [[[[value|]|e] self'] messages'] eqn:Hh; [| |done].
  - by eapply handle_within_budget.
  - apply IH. by eapply handle_within_budget.
Qed.

(** X11.  As long as a run has not failed, no tool of the agent is over
    its budget: whether the run is still going or has ended with a result,
    the retry counter of every retriever is at least 0 and at most its
    [max_retries] (0 for a negative [max_retries]), whatever the counters
    were before [run] was called. *)
Theorem tools_stay_within_budget (self : Agent)
    (event_loop : list Message -> list nat) (fuel : nat)
    (user_prompt : string) (message_history : option (list Message))
    (model : option _models.Model) (deps : option AgentDeps) :
  match Agent.run self event_loop fuel user_prompt message_history model
                  deps with
  | Ended (Raise _) _ _ => True
  | Running self' _ | Ended (Return _) self' _ =>
      ∀ key r, _retrievers self' !! key = Some r →
        0 ≤ _current_retry r ≤ Z.max 0 (max_retries r)
  end.
Proof.
  unfold Agent.run.
  destruct (Agent.before_loop self user_prompt message_history model deps)
    as [[[[self0 agent_model] messages] deps0]|e] eqn:Hbefore; [|done].
  apply before_loop_retrievers in Hbefore as [Hreset _].
  apply (loop_within_budget fuel self0 event_loop agent_model messages deps0).
  intros key r. rewrite Hreset, lookup_fmap.
  destruct (_retrievers self !! key); intros Hr; cbn in Hr; simplify_eq.
  unfold within_budget. cbn. lia.
Qed.

(** ** The conversation of a run *)

Lemma handle_appends self schedule messages llm_message deps :
  ∃ extra,
    (Agent._handle_model_response self schedule messages llm_message
                                  deps).2 =
    messages ++ FromLLM llm_message :: extra.
Proof.
  assert (Hrun : ∀ calls,
    ∃ extra,
      (Agent.run_retrievers self schedule
         (messages ++ [FromLLM llm_message]) calls deps).2 =
      messages ++ FromLLM llm_message :: extra).
  { intros calls. unfold Agent.run_retrievers.
    destruct (Agent.make_coros _ deps calls []) as [coros|e];
      [|exists []; by cbn].
    destruct (asyncio.gather schedule coros (_retrievers self))
      as [[results|e] retrievers']; cbn [snd].
    - exists results. by rewrite <- (assoc_L (++)).
    - by exists []. }
  unfold Agent._handle_model_response.
  destruct llm_message as [content|calls].
  - case_match; cbn [snd];
      [by exists []|exists [PlainResponseForbidden]];
      by rewrite <- (assoc_L (++)).
  - destruct (_result_tool self) as [t|]; [|apply Hrun].
    destruct (Agent.first_call_named _ calls) as [call|]; [|apply Hrun].
    destruct (Agent.validate_result_call self t deps call) as [result|e];
      [by exists []|].
    destruct e; try by exists [].
    rewrite incr_result_retry_eq. case_decide; cbn [snd];
      [exists [tool_retry]|exists []]; by rewrite <- ?(assoc_L (++)).
Qed.

Lemma loop_appends fuel : ∀ self event_loop agent_model messages deps,
  messages `prefix_of`
    conversation_of
      (Agent.loop fuel self event_loop agent_model messages deps).
Proof.
  induction fuel as [|fuel IH];
    intros self event_loop agent_model messages deps; cbn [Agent.loop];
    [done|].
  destruct (handle_appends self (event_loop messages) messages
    (_models.request agent_model messages) deps) as [extra Hextra].
  destruct (Agent._handle_model_response _ _ _ _ _)
    as [[o self'] messages']. cbn [snd] in Hextra. subst messages'.
  destruct o as [[value|]|e]; cbn [conversation_of];
    try by apply prefix_app_r.
  etrans; [|apply IH]. by apply prefix_app_r.
Qed.

(** X12.  The conversation of a run is append-only.  Every turn keeps the
    messages it was given and appends the model's message first; after any
    number of turns, and however the run ends, the conversation starts
    with the message history passed to [run], followed by the user
    prompt. *)
Theorem conversation_is_append_only (self : Agent)
    (event_loop : list Message -> list nat) (fuel : nat)
    (user_prompt : string) (history : list Message)
    (model : _models.Model) (deps : option AgentDeps) :
  (history ++ [UserPrompt user_prompt]) `prefix_of`
    conversation_of
      (Agent.run self event_loop fuel user_prompt (Some history)
                 (Some model) deps) ∧
  ∀ schedule messages llm_message deps0,
    ∃ extra,
      (Agent._handle_model_response self schedule messages llm_message
                                    deps0).2 =
      messages ++ FromLLM llm_message :: extra.
Proof.
  split; [|intros; apply handle_appends].
  unfold Agent.run, Agent.before_loop. apply loop_appends.
Qed.

(** X13.  The result of a run comes from the last message of the model.
    When the loop ends with a result, the returned message history is the
    whole conversation, its last message is the model's answer to all the
    messages before it, and the result is either the text of that answer,
    plain text being allowed, or the value to which the first call naming
    the result schema validates on the agent as it is at the end. *)
Theorem result_comes_from_last_message (fuel : nat) (self : Agent)
    (event_loop : list Message -> list nat)
    (agent_model : _models.AgentModel) (messages : list Message)
    (deps : AgentDeps) (result : _result.RunResult) (self' : Agent)
    (messages' : list Message) :
  Agent.loop fuel self event_loop agent_model messages deps =
    Ended (Return result) self' messages' →
  _result.message_history result = messages' ∧
  _result.cost result = _result.mkCost 0 ∧
  ∃ before,
    messages' = before ++ [FromLLM (_models.request agent_model before)] ∧
    match _models.request agent_model before with
    | LLMResponse content =>
        _allow_text_result self' = true ∧
        _result.response result = VStr content
    | LLMToolCalls calls =>
        ∃ t call,
          _result_tool self' = Some t ∧
          Agent.first_call_named (_result.name t) calls = Some call ∧
          Agent.validate_result_call self' t deps call =
            Return (_result.response result)
    end.
Proof.
  revert self messages.
  induction fuel as [|fuel IH]; intros self messages Hloop;
    cbn [Agent.loop] in Hloop; [discriminate Hloop|].
  destruct (Agent._handle_model_response _ _ _ _ _)
    as [[[[value|]|e] self1] messages1] eqn:Hh; [| |discriminate Hloop].
  - simplify_eq. cbn [_result.message_history _result.cost
      _result.response]. split_and!; [done|done|].
    exists messages. unfold Agent._handle_model_response in Hh.
    destruct (_models.request agent_model messages) as [content|calls].
    + destruct (_allow_text_result self) eqn:Hallow; by simplify_eq.
    + assert (Hrun : ∀ msgs,
        Agent.run_retrievers self (event_loop messages) msgs calls deps ≠
          (Return (Some value), self', messages')).
      { intros msgs. unfold Agent.run_retrievers. repeat case_match; done. }
      destruct (_result_tool self) as [t|] eqn:Ht; [|by apply Hrun in Hh].
      destruct (Agent.first_call_named _ calls) as [call|] eqn:Hcall;
        [|by apply Hrun in Hh].
      destruct (Agent.validate_result_call self t deps call)
        as [r|e] eqn:Hvalid.
      * simplify_eq. split; [done|]. by exists t, call.
      * destruct e; simplify_eq.
        rewrite incr_result_retry_eq in Hh. case_decide; simplify_eq.
  - by apply (IH self1 messages1).
Qed.

(** ** Turns that call every tool at most once *)

Lemma task_alone_frame before now now' deps call c :
  now' !! tool_name call = now !! tool_name call →
  task_alone before now deps call c → task_alone before now' deps call c.
Proof.
  intros Heq (self & Hself & Hc). exists self. split; [done|].
  destruct c; rewrite Heq; exact Hc.
Qed.

Lemma resume_task_alone before now deps call c o now' :
  task_alone before now deps call c →
  asyncio.resume_task now c = (o, now') →
  (∀ key, key ≠ tool_name call → now' !! key = now !! key) ∧
  match o with
  | Return c' => task_alone before now' deps call c'
  | Raise e =>
      ∃ self self',
        before !! tool_name call = Some self ∧
        Retriever.run self deps call = (Raise e, self')
  end.
Proof.
  intros (self & Hself & Hc) Hr. unfold asyncio.resume_task in Hr.
  destruct c as [d message|message awaited|m]; cbn [asyncio.task_key] in Hr.
  - destruct Hc as (-> & -> & Hnow). rewrite Hnow in Hr.
    cbn [Retriever.resume] in Hr.
    destruct (Retriever.validate_args self call) as [errors|v] eqn:Hv.
    + assert (Hrun : Retriever.run self deps call =
        Retriever._on_error self (ValidationError errors)
                            (FieldErrors errors) call).
      { unfold Retriever.run. by rewrite Hv. }
      destruct (Retriever._on_error self _ _ call) as [[m|e] self1];
        simplify_eq; (split; [intros key Hne; by apply lookup_insert_ne|]).
      * exists self. split; [done|]. exists self1.
        by rewrite lookup_insert_eq.
      * by exists self, self1.
    + destruct (Retriever._call_args self deps v) as [[a k]|e] eqn:Hargs;
        simplify_eq; (split; [intros key Hne; by apply lookup_insert_ne|]).
      * exists self. rewrite lookup_insert_eq. split_and!; try done.
        by exists v, a, k.
      * exists self, self. split; [done|].
        unfold Retriever.run. by rewrite Hv, Hargs.
  - destruct Hc as (-> & Hnow & v & a & k & Hv & Hargs & ->).
    rewrite Hnow in Hr. cbn [Retriever.resume] in Hr.
    assert (Hrun : Retriever.run self deps call =
      Retriever.after_function self call
        (Retriever.await_function self a k)).
    { unfold Retriever.run. by rewrite Hv, Hargs. }
    destruct (Retriever.after_function self call _) as [[m|e] self1];
      simplify_eq; (split; [intros key Hne; by apply lookup_insert_ne|]).
    + exists self. split; [done|]. exists self1.
      by rewrite lookup_insert_eq.
    + by exists self, self1.
  - simplify_eq. split; [done|]. by exists self.
Qed.

Lemma distinct_keys (calls : list ToolCall) i j ci cj :
  NoDup (tool_name <$> calls) →
  calls !! i = Some ci → calls !! j = Some cj → i ≠ j →
  tool_name ci ≠ tool_name cj.
Proof.
  intros Hnodup Hi Hj Hne Heq. apply Hne.
  apply (NoDup_lookup _ i j (tool_name ci) Hnodup);
    rewrite list_lookup_fmap; [by rewrite Hi|by rewrite Hj, Heq].
Qed.

Lemma run_schedule_alone before deps calls schedule :
  NoDup (tool_name <$> calls) →
  ∀ tasks now o now',
  Forall2 (task_alone before now deps) calls tasks →
  asyncio.run_schedule schedule tasks now = (o, now') →
  match o with
  | Return tasks' => Forall2 (task_alone before now' deps) calls tasks'
  | Raise e =>
      ∃ call self self',
        call ∈ calls ∧ before !! tool_name call = Some self ∧
        Retriever.run self deps call = (Raise e, self')
  end.
Proof.
  intros Hnodup.
  induction schedule as [|j schedule IH]; intros tasks now o now' Hall Hrun;
    cbn [asyncio.run_schedule] in Hrun; [by simplify_eq|].
  destruct (tasks !! j) as [cj|] eqn:Hj; [|by eapply IH].
  destruct (Forall2_lookup_r _ _ _ _ _ Hall Hj) as (call & Hcall & Hcj).
  destruct (asyncio.resume_task now cj) as [o1 now1] eqn:Hres.
  destruct (resume_task_alone _ _ _ _ _ _ _ Hcj Hres) as [Hframe Hstep].
  destruct o1 as [cj'|e].
  - eapply IH; [|exact Hrun].
    apply Forall2_same_length_lookup. split.
    + rewrite length_insert. by eapply Forall2_length.
    + intros i ci c Hi Hc. destruct (decide (i = j)) as [->|Hne].
      * rewrite list_lookup_insert_eq in Hc by (by eapply lookup_lt_Some).
        by simplify_eq.
      * rewrite list_lookup_insert_ne in Hc by done.
        eapply task_alone_frame;
          [|by eapply (Forall2_lookup_lr _ _ _ i ci c Hall)].
        apply Hframe. by eapply distinct_keys.
  - simplify_eq. destruct Hstep as (self & self' & Hself & Hraise).
    exists call, self, self'. split; [|done].
    apply list_elem_of_lookup. by eexists.
Qed.

Lemma created_task_alone before deps calls :
  (∀ call, call ∈ calls → is_Some (before !! tool_name call)) →
  Forall2 (task_alone before before deps) calls
          (Retriever.Created deps <$> calls).
Proof.
  induction calls as [|call calls IH]; intros Hknown; [constructor|].
  cbn. constructor.
  - destruct (Hknown call) as [self Hself]; [by left|]. by exists self.
  - apply IH. intros c Hc. apply Hknown. by right.
Qed.

Lemma gather_all_done schedule calls coros retrievers tasks retrievers' :
  Forall2 task_for calls coros →
  asyncio.run_schedule
    (schedule ++ seq 0 (length coros) ++ seq 0 (length coros)) coros
    retrievers = (Return tasks, retrievers') →
  ∀ i c, tasks !! i = Some c → steps_left c = 0%nat.
Proof.
  intros Hfor Hg. rewrite run_schedule_app in Hg.
  destruct (asyncio.run_schedule schedule coros retrievers)
    as [[tasks1|e] retrievers1] eqn:H1; [|simplify_eq].
  rewrite run_schedule_app in Hg.
  destruct (asyncio.run_schedule (seq 0 (length coros)) tasks1 retrievers1)
    as [[tasks2|e] retrievers2] eqn:H2; [|simplify_eq].
  destruct (run_schedule_tasks _ _ _ _ _ _ Hfor H1) as [Hfor1 Hs1].
  destruct (run_schedule_tasks _ _ _ _ _ _ Hfor1 H2) as [Hfor2 Hs2].
  destruct (run_schedule_tasks _ _ _ _ _ _ Hfor2 Hg) as [Hfor3 Hs3].
  intros i c3 Hi.
  assert (Hlt : (i < length coros)%nat).
  { rewrite <- (Forall2_length _ _ _ Hfor), (Forall2_length _ _ _ Hfor3).
    by eapply lookup_lt_Some. }
  destruct (lookup_lt_is_Some_2 coros i Hlt) as [c0 Hc0].
  destruct (Hs1 i c0 Hc0) as (c1 & Hc1 & Hle1 & _).
  destruct (Hs2 i c1 Hc1) as (c2 & Hc2 & _ & Hle2).
  destruct (Hs3 i c2 Hc2) as (c3' & Hc3 & _ & Hle3).
  assert (c3' = c3) as -> by congruence.
  assert (Hin : i ∈ seq 0 (length coros)) by (apply elem_of_seq; lia).
  specialize (Hle2 Hin). specialize (Hle3 Hin).
  destruct c0, c1, c2, c3; cbn in *; lia.
Qed.

Lemma results_alone before now deps calls tasks :
  Forall2 (task_alone before now deps) calls tasks →
  (∀ i c, tasks !! i = Some c → steps_left c = 0%nat) →
  Forall2 (run_alone before now deps) calls (omap asyncio.result tasks).
Proof.
  induction 1 as [|call c calls tasks Hc Hfor IH]; intros Hdone; [done|].
  pose proof (Hdone 0%nat c eq_refl) as Hc0.
  destruct c as [| |m]; try discriminate Hc0.
  cbn. constructor.
  - destruct Hc as (self & Hself & self' & Hrun & Hnow).
    by exists self, self'.
  - apply IH. intros i c Hi. by apply (Hdone (S i)).
Qed.

(** With every tool called at most once, gathering the batch is running
    each call on its retriever as the batch found it. *)
Lemma gather_alone schedule before deps calls o after :
  NoDup (tool_name <$> calls) →
  (∀ call, call ∈ calls → is_Some (before !! tool_name call)) →
  asyncio.gather schedule (Retriever.Created deps <$> calls) before =
    (o, after) →
  match o with
  | Return results => Forall2 (run_alone before after deps) calls results
  | Raise e =>
      ∃ call self self',
        call ∈ calls ∧ before !! tool_name call = Some self ∧
        Retriever.run self deps call = (Raise e, self')
  end.
Proof.
  intros Hnodup Hknown. unfold asyncio.gather.
  destruct (asyncio.run_schedule _ _ before) as [[tasks|e] now] eqn:Hrun;
    intros Hg; simplify_eq.
  - pose proof (run_schedule_alone before deps calls _ Hnodup _ _ _ _
      (created_task_alone before deps calls Hknown) Hrun) as Hall.
    cbn in Hall. apply results_alone; [done|].
    eapply gather_all_done; [apply created_task_for|exact Hrun].
  - apply (run_schedule_alone before deps calls _ Hnodup _ _ _ _
      (created_task_alone before deps calls Hknown) Hrun).
Qed.

Lemma gather_schedule_independent schedule1 schedule2 before deps calls
    results after :
  NoDup (tool_name <$> calls) →
  (∀ call, call ∈ calls → is_Some (before !! tool_name call)) →
  asyncio.gather schedule1 (Retriever.Created deps <$> calls) before =
    (Return results, after) →
  asyncio.gather schedule2 (Retriever.Created deps <$> calls) before =
    (Return results, after).
Proof.
  intros Hnodup Hknown H1.
  pose proof (gather_alone _ _ _ _ _ _ Hnodup Hknown H1) as Hall1.
  destruct (asyncio.gather schedule2 _ before) as [o2 after2] eqn:H2.
  pose proof (gather_alone _ _ _ _ _ _ Hnodup Hknown H2) as Hall2.
  cbn in Hall1. destruct o2 as [results2|e].
  - assert (results2 = results) as ->.
    { apply list_eq_same_length with (length calls);
        [symmetry; by eapply Forall2_length
        |symmetry; by eapply Forall2_length|].
      intros i m2 m1 Hi Hm2 Hm1.
      destruct (lookup_lt_is_Some_2 calls i Hi) as [call Hcall].
      pose proof (Forall2_lookup_lr _ _ _ _ _ _ Hall1 Hcall Hm1)
        as (s1 & s1' & Hs1 & Hr1 & _).
      pose proof (Forall2_lookup_lr _ _ _ _ _ _ Hall2 Hcall Hm2)
        as (s2 & s2' & Hs2 & Hr2 & _).
      congruence. }
    f_equal. apply map_eq. intros key.
    destruct (decide (key ∈ tool_name <$> calls)) as [Hin|Hnotin].
    + apply list_elem_of_fmap in Hin as (call & -> & Hin).
      apply list_elem_of_lookup in Hin as [i Hcall].
      destruct (Forall2_lookup_l _ _ _ _ _ Hall1 Hcall)
        as (m1 & _ & s1 & s1' & Hs1 & Hr1 & ->).
      destruct (Forall2_lookup_l _ _ _ _ _ Hall2 Hcall)
        as (m2 & _ & s2 & s2' & Hs2 & Hr2 & ->).
      congruence.
    + assert (Hother : ∀ call, call ∈ calls → tool_name call ≠ key).
      { intros call Hin <-. apply Hnotin. apply list_elem_of_fmap.
        by exists call. }
      rewrite (gather_frame _ _ _ _ _ _ _ (created_task_for deps calls)
                 Hother H2).
      by rewrite (gather_frame _ _ _ _ _ _ _ (created_task_for deps calls)
                    Hother H1).
  - destruct Hall2 as (call & s2 & s2' & Hin & Hs2 & Hr2).
    apply list_elem_of_lookup in Hin as [i Hcall].
    destruct (Forall2_lookup_l _ _ _ _ _ Hall1 Hcall)
      as (m1 & _ & s1 & s1' & Hs1 & Hr1 & _).
    congruence.
Qed.

(** X14.  When the calls of a dispatched turn name pairwise different
    tools, the turn does not depend on the order in which the event loop
    resumes and completes them: if it returns under one order, it returns
    the same outcome, agent and conversation under every other, and each
    appended message is what [run] returns for its call on the retriever
    as the turn found it. *)
Theorem one_call_per_tool_is_order_independent (self : Agent)
    (schedule1 schedule2 : list nat) (messages : list Message)
    (calls : list ToolCall) (deps : AgentDeps)
    (outcome : option ResultData) (self' : Agent)
    (messages' : list Message) :
  no_result_call self calls →
  NoDup (tool_name <$> calls) →
  Agent._handle_model_response self schedule1 messages (LLMToolCalls calls)
                               deps = (Return outcome, self', messages') →
  Agent._handle_model_response self schedule2 messages (LLMToolCalls calls)
                               deps = (Return outcome, self', messages') ∧
  ∃ results,
    messages' = messages ++ [FromLLM (LLMToolCalls calls)] ++ results ∧
    Forall2 (run_alone (_retrievers self) (_retrievers self') deps) calls
            results.
Proof.
  intros Hno Hnodup.
  assert (Hhandle : ∀ schedule,
    Agent._handle_model_response self schedule messages (LLMToolCalls calls)
                                 deps =
    Agent.run_retrievers self schedule
      (messages ++ [FromLLM (LLMToolCalls calls)]) calls deps).
  { intros schedule. unfold Agent._handle_model_response, no_result_call in *.
    destruct (_result_tool self) as [t|]; [by rewrite Hno|done]. }
  rewrite !Hhandle. unfold Agent.run_retrievers.
  destruct (Agent.make_coros _ deps calls []) as [coros|e] eqn:Hcoros;
    [|intros; simplify_eq].
  apply make_coros_Return in Hcoros as [-> Hknown]. cbn [app].
  destruct (asyncio.gather schedule1 _ (_retrievers self))
    as [[results|e] after] eqn:Hg; intros H; simplify_eq.
  rewrite (gather_schedule_independent schedule1 schedule2 _ _ _ _ _
             Hnodup Hknown Hg).
  split; [done|]. exists results. split; [by rewrite <- (assoc_L (++))|].
  cbn [_retrievers set_retrievers].
  apply (gather_alone _ _ _ _ _ _ Hnodup Hknown Hg).
Qed.

Lemma one_call_per_tool_is_order_independent_witness :
  Agent._handle_model_response abc_agent [2; 2; 1; 0]%nat [UserPrompt "?"]
    (LLMToolCalls abc_calls) VNone =
    (Return None,
     set_retrievers abc_agent
       (<["B" := city_tool "B" 1 1]> (_retrievers abc_agent)),
     [UserPrompt "?"; FromLLM (LLMToolCalls abc_calls);
      ToolReturn "A" "Sunny in Paris" (Some "a");
      ToolRetry "B" (RetryText "No such city, try another one") (Some "b");
      ToolReturn "C" "Sunny in Rome" (Some "c")]).
Proof.
  apply (one_call_per_tool_is_order_independent abc_agent
           (b_first_a_last [UserPrompt "?"]) [2; 2; 1; 0]%nat
           [UserPrompt "?"] abc_calls VNone).
  - exact I.
  - apply (bool_decide_unpack _). vm_compute. reflexivity.
  - vm_compute. reflexivity.
Defined.

(** Without that condition the order matters: the same two calls of one
    tool give a retry message when the successful call completes first,
    and end the run when the failing one does. *)
Example same_tool_twice_depends_on_order :
  Agent._handle_model_response strained_agent [0; 1; 0; 1]%nat []
    (LLMToolCalls twice_calls) VNone =
    (Return None, strained_agent,
     [FromLLM (LLMToolCalls twice_calls);
      ToolReturn "get_weather" "Sunny in Paris" (Some "call-2");
      ToolRetry "get_weather" (RetryText "No such city, try another one")
                (Some "call-3")]) ∧
  (Agent._handle_model_response strained_agent [0; 1; 1; 0]%nat []
     (LLMToolCalls twice_calls) VNone).1.1 =
    Raise (ModelRetry "No such city, try another one").
Proof. split; vm_compute; reflexivity. Qed.

Lemma seeded_conversation_witness :
  VStr "Ada" = VStr "Ada" ∧
  [SystemPrompt "Be helpful"; SystemPrompt "The user is Ada";
   SystemPrompt "Today is Monday"; UserPrompt "Weather?"] =
    Agent._init_messages weather_agent (VStr "Ada") ++
    ((λ runner, SystemPrompt (_system_prompt.run runner (VStr "Ada")))
       <$> [name_prompt; date_prompt]) ++
    [UserPrompt "Weather?"].
Proof.
  apply (seeded_conversation weather_agent [name_prompt; date_prompt]
           "Weather?" None (Some (scripted_model always_123))
           (Some (VStr "Ada"))
           (set_retrievers
              (foldl Agent.system_prompt weather_agent
                     [name_prompt; date_prompt])
              (Retriever.reset <$> _retrievers weather_agent))
           (scripted always_123)).
  vm_compute. reflexivity.
Defined.

Lemma result_comes_from_last_message_witness :
  ∃ before,
    [UserPrompt "Answer?";
     FromLLM (LLMToolCalls [result_call (VStr "42") "call-5"]);
     ToolRetry "final_result" (FieldErrors [answer_error]) (Some "call-5");
     FromLLM (LLMToolCalls [result_call (VInt 42) "call-6"])] =
      before ++ [FromLLM (retry_then_answer before)] ∧
    match retry_then_answer before with
    | LLMResponse content =>
        _allow_text_result weather_agent_after_run = true ∧
        VInt 42 = VStr content
    | LLMToolCalls calls =>
        ∃ t call,
          _result_tool weather_agent_after_run = Some t ∧
          Agent.first_call_named (_result.name t) calls = Some call ∧
          Agent.validate_result_call weather_agent_after_run t VNone call =
            Return (VInt 42)
    end.
Proof.
  apply (result_comes_from_last_message 2 weather_agent in_call_order
           (scripted retry_then_answer) [UserPrompt "Answer?"] VNone
           (_result.mkRunResult (VInt 42)
              [UserPrompt "Answer?";
               FromLLM (LLMToolCalls [result_call (VStr "42") "call-5"]);
               ToolRetry "final_result" (FieldErrors [answer_error])
                         (Some "call-5");
               FromLLM (LLMToolCalls [result_call (VInt 42) "call-6"])]
              (_result.mkCost 0))
           weather_agent_after_run).
  vm_compute. reflexivity.
Defined.

(** ** Result retries bound the run *)

Lemma set_current_result_retry_same self :
  set_current_result_retry self (_current_result_retry self) = self.
Proof. by destruct self. Qed.

Lemma failing_result_turns (base : Agent) event_loop agent_model deps t :
  _result_tool base = Some t →
  (∀ conversation n,
     ∃ calls call tool_retry,
       _models.request agent_model conversation = LLMToolCalls calls ∧
       Agent.first_call_named (_result.name t) calls = Some call ∧
       Agent.validate_result_call (set_current_result_retry base n) t deps
                                  call = Raise (ToolRetryError tool_retry)) →
  ∀ k c messages,
    c + Z.of_nat k ≤ _max_result_retries base →
    ∃ messages',
      Agent.loop k (set_current_result_retry base c) event_loop agent_model
                 messages deps =
        Running (set_current_result_retry base (c + Z.of_nat k)) messages'.
Proof.
  intros Htool Hfail.
  induction k as [|k IH]; intros c messages Hk.
  - exists messages. cbn [Agent.loop]. by rewrite Z.add_0_r.
  - destruct (Hfail messages c) as (calls & call & tool_retry & Hreq & Hcall
      & Hvalid).
    cbn [Agent.loop]. rewrite Hreq. unfold Agent._handle_model_response.
    cbn [_result_tool set_current_result_retry]. rewrite Htool, Hcall, Hvalid.
    rewrite incr_result_retry_eq.
    cbn [_current_result_retry _max_result_retries set_current_result_retry].
    rewrite decide_True by lia.
    destruct (IH (c + 1)
      ((messages ++ [FromLLM (LLMToolCalls calls)]) ++ [tool_retry]))
      as [messages' Hloop]; [lia|].
    exists messages'. etrans; [exact Hloop|]. do 2 f_equal. lia.
Qed.

(** X15.  Result retries bound a run against a model that never gives a
    valid result.  If at every turn the first call naming the result schema
    fails validation, the run goes on for as many turns as retries are
    left, the counter one higher after each, and the next turn ends it
    with the [RuntimeError], the counter at [_max_result_retries + 1]. *)
Theorem failing_results_exhaust_the_budget (self : Agent)
    (event_loop : list Message -> list nat)
    (agent_model : _models.AgentModel) (messages : list Message)
    (deps : AgentDeps) (t : _result.ResultSchema) :
  _result_tool self = Some t →
  (∀ conversation n,
     ∃ calls call tool_retry,
       _models.request agent_model conversation = LLMToolCalls calls ∧
       Agent.first_call_named (_result.name t) calls = Some call ∧
       Agent.validate_result_call (set_current_result_retry self n) t deps
                                  call = Raise (ToolRetryError tool_retry)) →
  _current_result_retry self ≤ _max_result_retries self →
  let left :=
    Z.to_nat (_max_result_retries self - _current_result_retry self) in
  (∀ k, (k ≤ left)%nat →
     ∃ messages',
       Agent.loop k self event_loop agent_model messages deps =
         Running (set_current_result_retry self
                    (_current_result_retry self + Z.of_nat k)) messages') ∧
  ∃ messages',
    Agent.loop (S left) self event_loop agent_model messages deps =
      Ended (Raise (RuntimeError_exceeded_result_retries
                      (_max_result_retries self)))
            (set_current_result_retry self (_max_result_retries self + 1))
            messages'.
Proof.
  intros Htool Hfail Hle left.
  assert (Hturns : ∀ k, (k ≤ left)%nat →
    ∃ messages',
      Agent.loop k self event_loop agent_model messages deps =
        Running (set_current_result_retry self
                   (_current_result_retry self + Z.of_nat k)) messages').
  { intros k Hk.
    destruct (failing_result_turns self event_loop agent_model deps t Htool
      Hfail k (_current_result_retry self) messages) as [messages' Hloop];
      [subst left; lia|].
    rewrite set_current_result_retry_same in Hloop. by exists messages'. }
  split; [exact Hturns|].
  destruct (Hturns left) as [messages1 Hloop]; [lia|].
  replace (S left) with (left + 1)%nat by lia.
  rewrite loop_add, Hloop.
  destruct (Hfail messages1 (_current_result_retry self + Z.of_nat left))
    as (calls & call & tool_retry & Hreq & Hcall & Hvalid).
  cbn [Agent.loop]. rewrite Hreq. unfold Agent._handle_model_response.
  cbn [_result_tool set_current_result_retry]. rewrite Htool, Hcall, Hvalid.
  rewrite incr_result_retry_eq.
  cbn [_current_result_retry _max_result_retries set_current_result_retry].
  rewrite decide_False by (subst left; lia).
  eexists. do 2 f_equal. subst left. lia.
Qed.

Lemma failing_results_exhaust_the_budget_witness :
  ∃ messages',
    Agent.loop 2 weather_agent in_call_order
      (scripted (fun _ => LLMToolCalls [result_call (VStr "42") "call-5"]))
      [UserPrompt "Answer?"] VNone =
      Ended (Raise (RuntimeError_exceeded_result_retries
                      (_max_result_retries weather_agent)))
            (set_current_result_retry weather_agent
               (_max_result_retries weather_agent + 1))
            messages'.
Proof.
  apply (failing_results_exhaust_the_budget weather_agent in_call_order
    (scripted (fun _ => LLMToolCalls [result_call (VStr "42") "call-5"]))
    [UserPrompt "Answer?"] VNone final_result).
  - reflexivity.
  - intros conversation n.
    exists [result_call (VStr "42") "call-5"],
           (result_call (VStr "42") "call-5"),
           (ToolRetry "final_result" (FieldErrors [answer_error])
                      (Some "call-5")).
    split_and!; reflexivity.
  - vm_compute. discriminate.
Defined.
